(** * CivicSense: issue lifecycle and analytics

    A shallow embedding of the request handlers of [server/routes/api.js],
    of the Issue schema of [server/models/Issue.js] and of the notification
    stub of [server/services/notificationService.js], followed by the
    properties of the issue lifecycle that the specification lists.

    Conventions of the embedding:
    - a field of the report form and of the two dashboard requests is an
      [option string], [None] being JavaScript's [undefined]; the other
      values that a JSON body can carry (numbers, booleans, [null], arrays,
      objects) are the subject of the modules [Json] and [Wire];
    - a text is the list of its UTF-8 bytes;
    - a [Date] is its number of milliseconds since the epoch, a [Z];
    - a JavaScript number is an exact rational (type [number] below), so the
      rounding of IEEE doubles is not part of the model;
    - the Mongo collection is the list of its documents in insertion order,
      and every handler is a function from the state of the world before the
      request to the state after it and the JSON reply;
    - [new Date()] and [Math.random()] are inputs of the handlers. *)

From Stdlib Require Import ZArith QArith Qabs Qround List String Ascii Bool Lia.
From Stdlib Require Import Permutation Sorted.
Import ListNotations.

#[local] Open Scope string_scope.
#[local] Open Scope Z_scope.

(* ------------------------------------------------------------------ *)
(** ** JavaScript primitives used by the handlers *)

Module JS.

(** [!v] on a request field: [undefined] and the empty string are falsy,
    every other string is truthy. *)
Definition falsy (v : option string) : bool :=
  match v with
  | None => true
  | Some s => (s =? "")%string
  end.

(** The string behind a field once [falsy] has been excluded. *)
Definition text (v : option string) : string :=
  match v with
  | Some s => s
  | None => ""
  end.

Definition digit (d : Z) : ascii := ascii_of_nat (48 + Z.to_nat d).

Fixpoint digits (fuel : nat) (n : Z) (acc : string) : string :=
  match fuel with
  | O => acc
  | S fuel' =>
      let acc' := String (digit (n mod 10)) acc in
      if n / 10 =? 0 then acc' else digits fuel' (n / 10) acc'
  end.

(** [Number.prototype.toString] on an integer: decimal, no leading zero. *)
Definition toString (n : Z) : string :=
  if n <? 0
  then "-" ++ digits (S (Z.to_nat (Z.log2 (- n)))) (- n) ""
  else digits (S (Z.to_nat (Z.log2 n))) n "".

(** A JavaScript number, as far as the handlers can tell them apart. *)
Inductive number : Type :=
| NaN
| Infinite (negative : bool)
| Finite (q : Q).

Definition is_digit (c : ascii) : bool :=
  let n := nat_of_ascii c in (48 <=? n)%nat && (n <=? 57)%nat.

(** The white space of the language (WhiteSpace and LineTerminator), which
    [parseFloat] and [trim] skip, by its UTF-8 bytes.  One byte: U+0009 to
    U+000D and U+0020. *)
Definition is_space (c : ascii) : bool :=
  let n := nat_of_ascii c in (n =? 32)%nat || ((9 <=? n)%nat && (n <=? 13)%nat).

(** Two bytes: U+00A0. *)
Definition is_space2 (c1 c2 : ascii) : bool :=
  (nat_of_ascii c1 =? 194)%nat && (nat_of_ascii c2 =? 160)%nat.

(** Three bytes: U+1680, U+2000 to U+200A, U+2028, U+2029, U+202F, U+205F,
    U+3000 and U+FEFF. *)
Definition is_space3 (c1 c2 c3 : ascii) : bool :=
  let a := nat_of_ascii c1 in
  let b := nat_of_ascii c2 in
  let c := nat_of_ascii c3 in
  ((a =? 225) && (b =? 154) && (c =? 128))%nat
  || ((a =? 226) && (b =? 128)
      && (((128 <=? c) && (c <=? 138)) || (c =? 168) || (c =? 169) || (c =? 175)))%nat
  || ((a =? 226) && (b =? 129) && (c =? 159))%nat
  || ((a =? 227) && (b =? 128) && (c =? 128))%nat
  || ((a =? 239) && (b =? 187) && (c =? 191))%nat.

Fixpoint skip_space (s : string) : string :=
  match s with
  | String c1 r1 =>
      if is_space c1 then skip_space r1
      else
        match r1 with
        | String c2 r2 =>
            if is_space2 c1 c2 then skip_space r2
            else
              match r2 with
              | String c3 r3 => if is_space3 c1 c2 c3 then skip_space r3 else s
              | EmptyString => s
              end
        | EmptyString => s
        end
  | EmptyString => s
  end.

(** Reads the longest run of decimal digits: its value (continuing [acc]),
    its length and the rest of the text. *)
Fixpoint read_digits (s : string) (acc : Z) (len : nat) : Z * nat * string :=
  match s with
  | String c r =>
      if is_digit c
      then read_digits r (10 * acc + (Z.of_nat (nat_of_ascii c) - 48)) (S len)
      else (acc, len, s)
  | EmptyString => (acc, len, s)
  end.

Definition read_sign (s : string) : bool * string :=
  match s with
  | String "-" r => (true, r)
  | String "+" r => (false, r)
  | _ => (false, s)
  end.

(** The exponent part [e±ddd], 0 when there is none or it has no digit. *)
Definition read_exponent (s : string) : Z :=
  match s with
  | String c r =>
      if (c =? "e")%char || (c =? "E")%char
      then let (neg, r') := read_sign r in
           let '(e, len, _) := read_digits r' 0 0 in
           if (len =? 0)%nat then 0 else if neg then - e else e
      else 0
  | EmptyString => 0
  end.

(** [parseFloat]: leading white space is skipped and the longest prefix that
    is a decimal literal is read; [NaN] when there is none. *)
Definition parseFloat (s : string) : number :=
  let (neg, s1) := read_sign (skip_space s) in
  if prefix "Infinity" s1 then Infinite neg
  else
    let '(ip, ni, s2) := read_digits s1 0 0 in
    let '(fp, nf, s3) :=
      match s2 with
      | String "." r => read_digits r 0 0
      | _ => (0, 0%nat, s2)
      end in
    if (ni + nf =? 0)%nat then NaN
    else
      let m := (inject_Z ip + inject_Z fp / inject_Z (10 ^ Z.of_nat nf))%Q in
      let v := (m * Qpower (inject_Z 10) (read_exponent s3))%Q in
      Finite (Qred (if neg then - v else v)%Q).

(** [Number.prototype.toFixed(1)]: the sign, then the nearest number of
    tenths of the magnitude (the larger one on a tie). *)
Definition toFixed1 (x : Q) : string :=
  let n := Qfloor (Qabs x * inject_Z 10 + (1 # 2))%Q in
  (if Qlt_le_dec x 0 then "-" else "") ++ toString (n / 10) ++ "." ++ toString (n mod 10).

End JS.

(* ------------------------------------------------------------------ *)
(** ** The Issue schema ([server/models/Issue.js]) *)

Module Schema.

Record Location : Type := mkLocation {
  loc_type : string;                 (* location.type *)
  coordinates : list JS.number;      (* [longitude, latitude] *)
  landmark : option string
}.

(** One document of the [issues] collection.  [createdAt] and [updatedAt]
    are the two fields that the schema option [timestamps: true] adds. *)
Record Issue : Type := mkIssue {
  issueId : string;
  issueType : string;
  description : string;
  location : Location;
  imageUrl : option string;
  status : string;
  citizenContact : string;
  assignedDepartment : string;
  assignedTo : option string;        (* ObjectId of a User, as lower-case hex *)
  resolvedAt : option Z;
  createdAt : Z;
  updatedAt : Z
}.

Definition issueType_enum : list string :=
  ["Pothole"; "Garbage Overflow"; "Streetlight Outage"; "Water Leakage"; "Other"].

Definition status_enum : list string :=
  ["Pending"; "Acknowledged"; "In Progress"; "Resolved"].

Definition status_default : string := "Pending".

Definition member (s : string) (l : list string) : bool :=
  existsb (String.eqb s) l.

(** The [required] validator of a String path rejects the empty string. *)
Definition required (s : string) : bool := negb (s =? "")%string.

(** Casting to [Number] fails on [NaN] only. *)
Definition castNumber (n : JS.number) : bool :=
  match n with
  | JS.NaN => false
  | _ => true
  end.

Definition is_hex (c : ascii) : bool :=
  let n := nat_of_ascii c in
  JS.is_digit c || ((65 <=? n)%nat && (n <=? 70)%nat)
                || ((97 <=? n)%nat && (n <=? 102)%nat).

Definition lower (c : ascii) : ascii :=
  let n := nat_of_ascii c in
  if (65 <=? n)%nat && (n <=? 90)%nat then ascii_of_nat (n + 32) else c.

Fixpoint map_string (f : ascii -> ascii) (s : string) : string :=
  match s with
  | String c r => String (f c) (map_string f r)
  | EmptyString => EmptyString
  end.

Fixpoint all_chars (p : ascii -> bool) (s : string) : bool :=
  match s with
  | String c r => p c && all_chars p r
  | EmptyString => true
  end.

(** Casting a string to [Schema.Types.ObjectId]: 24 hexadecimal digits. *)
Definition castObjectId (s : string) : option string :=
  if (String.length s =? 24)%nat && all_chars is_hex s
  then Some (map_string lower s)
  else None.

(** The property [issue.<path>] of a document for a path that holds a
    [Date].  Only the paths of the schema are properties of a document:
    any other name reads as [undefined]. *)
Definition date_at (path : string) (i : Issue) : option Z :=
  if (path =? "resolvedAt")%string then resolvedAt i
  else if (path =? "createdAt")%string then Some (createdAt i)
  else if (path =? "updatedAt")%string then Some (updatedAt i)
  else None.

(** Document validation, as [save()] runs it: [required] and [enum] of every
    path, and the casts of the coordinates. *)
Definition validate (i : Issue) : bool :=
  required (issueId i)
  && required (issueType i) && member (issueType i) issueType_enum
  && required (description i)
  && required (loc_type (location i)) && member (loc_type (location i)) ["Point"]
  && forallb castNumber (coordinates (location i))
  && required (status i) && member (status i) status_enum
  && required (citizenContact i)
  && required (assignedDepartment i).

Definition Qbetween (lo hi : Z) (n : JS.number) : bool :=
  match n with
  | JS.Finite q => Qle_bool (inject_Z lo) q && Qle_bool q (inject_Z hi)
  | _ => false
  end.

(** The [2dsphere] index on [location] accepts a GeoJSON point only: two
    coordinates, the longitude within ±180 and the latitude within ±90. *)
Definition geo_indexable (l : Location) : bool :=
  match coordinates l with
  | [lng; lat] => Qbetween (-180) 180 lng && Qbetween (-90) 90 lat
  | _ => false
  end.

End Schema.

(* ------------------------------------------------------------------ *)
(** ** The [issues] collection, as Mongoose drives it *)

Module Store.
Import Schema.

Inductive StoreError : Type :=
| ValidationError      (* a validator or a cast of the schema failed *)
| GeoKeyError          (* the 2dsphere index cannot index the location *)
| DuplicateKey         (* E11000: the unique index on issueId *)
| DocumentNotFound.    (* save() found no document to update *)

Definition has_id (id : string) (i : Issue) : bool := (issueId i =? id)%string.

(** [Issue.findOne({ issueId })]: the first match in natural order. *)
Definition findOne (id : string) (c : list Issue) : option Issue :=
  find (has_id id) c.

(** [save()] of a new document: validation runs first, then the insert,
    which the indexes of the collection can refuse. *)
Definition insert (i : Issue) (c : list Issue) : StoreError + list Issue :=
  if negb (validate i) then inl ValidationError
  else if negb (geo_indexable (location i)) then inl GeoKeyError
  else if existsb (has_id (issueId i)) c then inl DuplicateKey
  else inr (c ++ [i])%list.

(** Rewrites the first document with tracking id [id]; [None] when there is
    none.  The result carries the collection and the rewritten document. *)
Fixpoint update_first (id : string) (f : Issue -> Issue) (c : list Issue)
  : option (list Issue * Issue) :=
  match c with
  | [] => None
  | i :: r =>
      if has_id id i then Some (f i :: r, f i)
      else match update_first id f r with
           | Some (r', u) => Some (i :: r', u)
           | None => None
           end
  end.

(** The update document [{ status }] or [{ status, resolvedAt }]:
    [ud_resolvedAt = None] when the key is not in it. *)
Record UpdateData : Type := mkUpdateData {
  ud_status : string;
  ud_resolvedAt : option Z
}.

(** [$set: updateData] on one document.  The [timestamps] option makes the
    update also set [updatedAt]; every other path is left as it is. *)
Definition apply_set (now : Z) (u : UpdateData) (i : Issue) : Issue :=
  mkIssue (issueId i) (issueType i) (description i) (location i) (imageUrl i)
          (ud_status u)
          (citizenContact i) (assignedDepartment i) (assignedTo i)
          (match ud_resolvedAt u with
           | Some d => Some d
           | None => resolvedAt i
           end)
          (createdAt i) now.

(** [Issue.findOneAndUpdate({ issueId }, { $set: updateData }, { new: true })].
    No [runValidators] option is passed, so the schema validators do not run. *)
Definition findOneAndUpdate (now : Z) (id : string) (u : UpdateData)
  (c : list Issue) : option (list Issue * Issue) :=
  update_first id (apply_set now u) c.

Definition with_assignedTo (now : Z) (oid : string) (i : Issue) : Issue :=
  mkIssue (issueId i) (issueType i) (description i) (location i) (imageUrl i)
          (status i) (citizenContact i) (assignedDepartment i)
          (Some oid)
          (resolvedAt i) (createdAt i) now.

(** [issue.assignedTo = userId; issue.save()] on a document that
    [findOne] returned, then [findById(issue._id)].  The assignment casts
    [userId] to an ObjectId; [save()] validates the whole document and then
    writes the modified path (and [updatedAt]), or nothing when the value
    did not change. *)
Definition save_assignedTo (now : Z) (issue : Issue) (userId : string)
  (c : list Issue) : StoreError + list Issue * Issue :=
  match castObjectId userId with
  | None => inl ValidationError
  | Some oid =>
      if negb (validate issue) then inl ValidationError
      else if match assignedTo issue with
              | Some old => (old =? oid)%string
              | None => false
              end
      then inr (c, issue)
      else match update_first (issueId issue) (with_assignedTo now oid) c with
           | Some r => inr r
           | None => inl DocumentNotFound
           end
  end.

End Store.

(* ------------------------------------------------------------------ *)
(** ** The request handlers ([server/routes/api.js]) *)

Module Api.
Import Schema.

(** The state the handlers act on: the collection and the notifications
    handed to [sendNotification], oldest first. *)
Record World : Type := mkWorld {
  issues : list Issue;
  outbox : list (string * string)
}.

Definition empty_world : World := mkWorld [] [].

Inductive Payload : Type :=
| NoData
| UploadError (error : string)
| TrackingId (issueId : string)
| Document (issue : Issue)
| Analytics (avgResolutionTimeHours : string).

Record Reply : Type := mkReply {
  code : Z;
  message : option string;
  payload : Payload
}.

(** The fields of the report form. *)
Record ReportBody : Type := mkReportBody {
  rb_issueType : option string;
  rb_latitude : option string;
  rb_longitude : option string;
  rb_landmark : option string;
  rb_description : option string;
  rb_citizenContact : option string
}.

(** [generateIssueId], on the value [rnd] that [Math.random()] returned. *)
Definition generateIssueId (rnd : Q) : string :=
  JS.toString (Qfloor (inject_Z 100000 + rnd * inject_Z 900000)%Q).

(** The department of a category: the chain of comparisons that computes
    [assignedDepartment] in the report handler. *)
Definition route (issueType : string) : string :=
  if (issueType =? "Garbage Overflow")%string then "Sanitation"
  else if (issueType =? "Pothole")%string then "Public Works"
  else if (issueType =? "Streetlight Outage")%string then "Electrical"
  else if (issueType =? "Water Leakage")%string then "Water Department"
  else "General Services".

Definition missing_required (b : ReportBody) : bool :=
  JS.falsy (rb_issueType b) || JS.falsy (rb_latitude b)
  || JS.falsy (rb_longitude b) || JS.falsy (rb_description b)
  || JS.falsy (rb_citizenContact b).

(** [new Issue({...})] of the report handler; the schema supplies the
    default status, and [save()] the two timestamps. *)
Definition newIssue (now : Z) (rnd : Q) (file : option string)
  (b : ReportBody) : Issue :=
  let issueType := JS.text (rb_issueType b) in
  mkIssue (generateIssueId rnd)
          issueType
          (JS.text (rb_description b))
          (mkLocation "Point"
             [JS.parseFloat (JS.text (rb_longitude b));
              JS.parseFloat (JS.text (rb_latitude b))]
             (rb_landmark b))
          (match file with
           | Some filename => Some ("/uploads/" ++ filename)
           | None => None
           end)
          status_default
          (JS.text (rb_citizenContact b))
          (route issueType)
          None None now now.

Definition confirmationMessage (i : Issue) : string :=
  "Thank you! Your issue report (#" ++ issueId i ++ " - " ++ issueType i
  ++ ") has been received. We will keep you updated on its progress.".

(** POST /api/report.  [err] is the error of the upload middleware and
    [file] the name under which it stored the photo, if any. *)
Definition post_report (now : Z) (rnd : Q) (err file : option string)
  (b : ReportBody) (w : World) : World * Reply :=
  if negb (JS.falsy err)
  then (w, mkReply 400 (Some "File upload error.") (UploadError (JS.text err)))
  else if missing_required b
  then (w, mkReply 400
             (Some "Missing required fields. Please fill out all parts of the form.")
             NoData)
  else
    let i := newIssue now rnd file b in
    match Store.insert i (issues w) with
    | inr c =>
        (mkWorld c (outbox w ++ [(citizenContact i, confirmationMessage i)])%list,
         mkReply 201 (Some "Issue reported successfully!") (TrackingId (issueId i)))
    | inl _ =>
        (w, mkReply 500
              (Some "An unexpected server error occurred while submitting your report.")
              NoData)
    end.

Definition updateData (now : Z) (status : string) : Store.UpdateData :=
  Store.mkUpdateData status
    (if (status =? "Resolved")%string then Some now else None).

Definition updateMessage (issueId status : string) : string :=
  "Update for issue #" ++ issueId ++ ": The status has been changed to "
  ++ String (ascii_of_nat 34) status ++ String (ascii_of_nat 34) ".".

(** POST /api/update_status. *)
Definition post_update_status (now : Z) (issueId status : option string)
  (w : World) : World * Reply :=
  if JS.falsy issueId || JS.falsy status
  then (w, mkReply 400 (Some "Issue ID and a new status are required.") NoData)
  else
    match Store.findOneAndUpdate now (JS.text issueId)
            (updateData now (JS.text status)) (issues w) with
    | None => (w, mkReply 404 (Some "Issue not found with that ID.") NoData)
    | Some (c, updatedIssue) =>
        (mkWorld c (outbox w ++ [(citizenContact updatedIssue,
                                  updateMessage (JS.text issueId) (JS.text status))])%list,
         mkReply 200 (Some "Status updated successfully!") (Document updatedIssue))
    end.

(** POST /api/assign_issue.  The reply carries the document read back by
    [findById]; what its [populate] puts in the place of [assignedTo] is in
    the module [Populate]. *)
Definition post_assign_issue (now : Z) (issueId userId : option string)
  (w : World) : World * Reply :=
  if JS.falsy issueId || JS.falsy userId
  then (w, mkReply 400 (Some "Issue ID and User ID are required for assignment.") NoData)
  else
    match Store.findOne (JS.text issueId) (issues w) with
    | None => (w, mkReply 404 (Some "Issue not found with that ID.") NoData)
    | Some issue =>
        match Store.save_assignedTo now issue (JS.text userId) (issues w) with
        | inl _ => (w, mkReply 500 (Some "Failed to assign issue.") NoData)
        | inr (c, updatedIssue) =>
            (mkWorld c (outbox w),
             mkReply 200 (Some "Issue assigned successfully!") (Document updatedIssue))
        end
    end.

(** GET /api/track_status/:issue_id.  The reply carries the document that
    [findOne] read; what its [populate] puts in the place of [assignedTo] is
    in the module [Populate]. *)
Definition get_track_status (issue_id : string) (w : World) : Reply :=
  match Store.findOne issue_id (issues w) with
  | None => mkReply 404
              (Some "Issue ID not found. Please double-check the ID and try again.")
              NoData
  | Some issue => mkReply 200 None (Document issue)
  end.


(** The query of the analytics handler:
    [Issue.find({ status: 'Resolved', resolvedAt: { $ne: null } })]. *)
Definition resolvedIssues (c : list Issue) : list Issue :=
  filter (fun i => (status i =? "Resolved")%string
                   && match resolvedAt i with Some _ => true | None => false end) c.

(** One turn of the [forEach]: the pair is
    [(totalResolutionTimeMs, validResolvedCount)]. *)
Definition tally (acc : Z * Z) (issue : Issue) : Z * Z :=
  match date_at "resolvedAt" issue, date_at "reportedAt" issue with
  | Some resolved, Some reported =>
      (fst acc + (resolved - reported), snd acc + 1)
  | _, _ => acc
  end.

Definition avgResolutionTimeMs (c : list Issue) : Q :=
  let (totalResolutionTimeMs, validResolvedCount) :=
    fold_left tally (resolvedIssues c) (0, 0) in
  if 0 <? validResolvedCount
  then (inject_Z totalResolutionTimeMs / inject_Z validResolvedCount)%Q
  else 0%Q.

Definition avgResolutionTimeHours (c : list Issue) : string :=
  JS.toFixed1 (avgResolutionTimeMs c / inject_Z (1000 * 60 * 60))%Q.

(** GET /api/analytics, restricted to the average resolution time (the two
    group counts of the reply are not modelled). *)
Definition get_analytics (w : World) : Reply :=
  mkReply 200 None (Analytics (avgResolutionTimeHours (issues w))).

(** The requests of the API and the instant and random draw they meet. *)
Inductive Request : Type :=
| Report (rnd : Q) (err file : option string) (body : ReportBody)
| UpdateStatus (issueId status : option string)
| AssignIssue (issueId userId : option string)
| TrackStatus (issue_id : string)
| GetAnalytics.

Definition handle (now : Z) (r : Request) (w : World) : World * Reply :=
  match r with
  | Report rnd err file body => post_report now rnd err file body w
  | UpdateStatus issueId status => post_update_status now issueId status w
  | AssignIssue issueId userId => post_assign_issue now issueId userId w
  | TrackStatus issue_id => (w, get_track_status issue_id w)
  | GetAnalytics => (w, get_analytics w)
  end.

(** Runs a log of timed requests, oldest first. *)
Fixpoint run (log : list (Z * Request)) (w : World) : World :=
  match log with
  | [] => w
  | (now, r) :: rest => run rest (fst (handle now r w))
  end.

(** [reachable t w]: the server, started on an empty collection, is in
    state [w] after requests served at non-decreasing instants, the last
    one no later than [t]. *)
Inductive reachable : Z -> World -> Prop :=
| reachable_start : forall t, reachable t empty_world
| reachable_step : forall t w now r,
    reachable t w -> t <= now -> reachable now (fst (handle now r w)).

End Api.

(* ------------------------------------------------------------------ *)
(** ** The specification's own words, for comparison with the handlers *)

Module SpecText.
Import Schema.

(** "issues where status == Resolved AND both resolvedAt and createdAt are
    present and valid timestamps" ([createdAt] is always present in a
    stored document). *)
Definition qualifies (i : Issue) : bool :=
  (status i =? "Resolved")%string
  && match resolvedAt i with Some _ => true | None => false end.

Definition resolution_ms (i : Issue) : Z :=
  match resolvedAt i with
  | Some r => r - createdAt i
  | None => 0
  end.

(** "mean of (resolvedAt - createdAt) in hours ... If no issue qualifies,
    the average is defined as 0." *)
Definition average_resolution_hours (c : list Issue) : Q :=
  let qualifying := filter qualifies c in
  match qualifying with
  | [] => 0%Q
  | _ => (inject_Z (fold_right Z.add 0%Z (map resolution_ms qualifying))
          / inject_Z (Z.of_nat (List.length qualifying))
          / inject_Z 3600000)%Q
  end.

(** The pattern the citizen page checks a tracking id against: six decimal
    digits and nothing else. *)
Definition six_digits (s : string) : bool :=
  (String.length s =? 6)%nat && all_chars JS.is_digit s.

(** "at least one of the required fields ... is missing": the field is not
    in the submission, or is there with no text. *)
Definition absent_or_empty (v : option string) : Prop :=
  v = None \/ v = Some "".

Definition departments : list string :=
  ["Sanitation"; "Public Works"; "Electrical"; "Water Department"; "General Services"].

End SpecText.

Import Schema Store Api.

(* ------------------------------------------------------------------ *)
(** ** Properties of records and of the collection *)


(** The record [b] is the record [a] after a status update to [s] at [now]:
    [status] is [s], [resolvedAt] is [now] when [s] is Resolved and is kept
    otherwise, [updatedAt] is the store's modification stamp, and every
    other field is the one of [a]. *)
Definition status_written (now : Z) (s : string) (a b : Issue) : Prop :=
  b = mkIssue (issueId a) (issueType a) (description a) (location a) (imageUrl a)
              s
              (citizenContact a) (assignedDepartment a) (assignedTo a)
              (if (s =? "Resolved")%string then Some now else resolvedAt a)
              (createdAt a) now.

(** The record [b] is the record [a] after a staff assignment at [now]:
    [assignedTo] is the new reference, [updatedAt] is the store's
    modification stamp, and every other field is the one of [a]. *)
Definition assignedTo_written (now : Z) (a b : Issue) : Prop :=
  exists oid,
    b = mkIssue (issueId a) (issueType a) (description a) (location a) (imageUrl a)
                (status a) (citizenContact a) (assignedDepartment a)
                (Some oid)
                (resolvedAt a) (createdAt a) now.

(** What one request served at [now] can do to the collection. *)
Inductive effect (now : Z) (c c' : list Issue) : Prop :=
| Unchanged : c' = c -> effect now c c'
| Inserted : forall rnd file b,
    Store.insert (newIssue now rnd file b) c = inr c' -> effect now c c'
| StatusSet : forall id s u,
    Store.update_first id (Store.apply_set now (updateData now s)) c = Some (c', u) ->
    effect now c c'
| Assigned : forall id oid u,
    Store.update_first id (Store.with_assignedTo now oid) c = Some (c', u) ->
    effect now c c'.

(** The requests of a log are served at non-decreasing instants, starting
    no earlier than [t]. *)
Fixpoint nondecreasing (t : Z) (log : list (Z * Request)) : bool :=
  match log with
  | [] => true
  | (now, _) :: rest => (t <=? now) && nondecreasing now rest
  end.

Fixpoint end_time (t : Z) (log : list (Z * Request)) : Z :=
  match log with
  | [] => t
  | (now, _) :: rest => end_time now rest
  end.

(** The turn of the [forEach] and the average of the analytics handler
    with the schema's [createdAt] read where the handler reads
    [reportedAt]; everything else is the handler's. *)
Definition tally_createdAt (acc : Z * Z) (issue : Issue) : Z * Z :=
  match date_at "resolvedAt" issue, date_at "createdAt" issue with
  | Some resolved, Some created =>
      (fst acc + (resolved - created), snd acc + 1)
  | _, _ => acc
  end.

Definition avgResolutionTimeMs_createdAt (c : list Issue) : Q :=
  let (totalResolutionTimeMs, validResolvedCount) :=
    fold_left tally_createdAt (resolvedIssues c) (0, 0) in
  if 0 <? validResolvedCount
  then (inject_Z totalResolutionTimeMs / inject_Z validResolvedCount)%Q
  else 0%Q.

(** Case analysis on every string comparison of the goal. *)
Ltac destruct_eqb :=
  repeat match goal with
         | |- context [(?a =? ?b)%string] => destruct (a =? b)%string
         end.

(* ------------------------------------------------------------------ *)
(** ** Sample requests and states used by the concrete scenarios *)

Definition pothole_report : ReportBody :=
  mkReportBody (Some "Pothole") (Some "12.97") (Some "77.59") None
               (Some "Deep hole near the bus stop") (Some "+919876543210").

Definition report_without_category : ReportBody :=
  mkReportBody None (Some "12.97") (Some "77.59") None
               (Some "Deep hole near the bus stop") (Some "+919876543210").




(** The error with which the upload middleware refuses a file that is not
    an image. *)
Definition upload_refused : option string :=
  Some "Error: Please upload images only (jpeg, jpg, png, gif).".

(** A status that the schema does not list. *)
Definition unknown_status : string := "Bogus".

(** One report, served at instant 1000 with the draw 1/2 (id 550000). *)
Definition one_pending : World :=
  run [(1000, Report (1 # 2) None None pothole_report)] empty_world.

(** A report, its resolution two hours later, and its reopening. *)
Definition resolved_log : list (Z * Request) :=
  [(1000, Report (1 # 2) None None pothole_report);
   (7201000, UpdateStatus (Some "550000") (Some "Resolved"))].

Definition reopened_log : list (Z * Request) :=
  (resolved_log ++ [(7202000, UpdateStatus (Some "550000") (Some "Pending"))])%list.

Definition one_resolved : World := run resolved_log empty_world.

Definition reopened : World := run reopened_log empty_world.

(* ------------------------------------------------------------------ *)
(** ** More JavaScript string primitives *)

Module JSString.

(** [s.includes(t)]: [t] occurs in [s]. *)
Fixpoint includes (s t : string) : bool :=
  prefix t s
  || match s with
     | String _ r => includes r t
     | EmptyString => false
     end.

Definition toLowerCase (s : string) : string := map_string lower s.

(** [s.trimEnd()]: the text is cut where nothing but white space follows. *)
Fixpoint trimEnd (s : string) : string :=
  match s with
  | EmptyString => EmptyString
  | String c r =>
      if (JS.skip_space s =? "")%string then EmptyString else String c (trimEnd r)
  end.

(** [s.trim()]: white space is removed at both ends. *)
Definition trim (s : string) : string := trimEnd (JS.skip_space s).

End JSString.

(* ------------------------------------------------------------------ *)
(** ** The upload filter ([server/routes/api.js], [checkFileType]) *)

Module Upload.

(** The alternatives of the pattern [/jpeg|jpg|png|gif/]. *)
Definition filetypes : list string := ["jpeg"; "jpg"; "png"; "gif"].

(** [filetypes.test(x)]: the pattern is not anchored, so it matches when
    one of its alternatives occurs anywhere in [x]. *)
Definition filetypes_test (x : string) : bool :=
  existsb (JSString.includes x) filetypes.

(** [checkFileType(file, cb)], on [ext = path.extname(file.originalname)]
    and [file.mimetype].  The result is the error handed to [cb]: [None]
    is [cb(null, true)]. *)
Definition checkFileType (ext mimetype : string) : option string :=
  let extname := filetypes_test (JSString.toLowerCase ext) in
  let mimetype := filetypes_test mimetype in
  if mimetype && extname
  then None
  else Some "Error: Please upload images only (jpeg, jpg, png, gif).".

End Upload.

(* ------------------------------------------------------------------ *)
(** ** The group counts of the analytics handler *)

Module Aggregate.

(** One more document with key [k]. *)
Fixpoint bump (k : string) (groups : list (string * Z)) : list (string * Z) :=
  match groups with
  | [] => [(k, 1)]
  | (k', n) :: r => if (k' =? k)%string then (k', n + 1) :: r
                    else (k', n) :: bump k r
  end.

(** [{ $group: { _id: '$field', count: { $sum: 1 } } }] on the values of the
    field, one per document.  The store leaves the order of the groups
    open; here they come in the order of their first document. *)
Definition group (keys : list string) : list (string * Z) :=
  fold_left (fun g k => bump k g) keys [].

Fixpoint insert_desc (x : string * Z) (l : list (string * Z))
  : list (string * Z) :=
  match l with
  | [] => [x]
  | y :: r => if snd y <? snd x then x :: l else y :: insert_desc x r
  end.

(** [{ $sort: { count: -1 } }]: larger counts first. *)
Definition sort_desc (l : list (string * Z)) : list (string * Z) :=
  fold_right insert_desc [] l.

Definition trendData (c : list Issue) : list (string * Z) :=
  sort_desc (group (map issueType c)).

Definition statusCounts (c : list Issue) : list (string * Z) :=
  group (map status c).

End Aggregate.

(* ------------------------------------------------------------------ *)
(** ** The User schema ([server/models/User.js]) *)

Module Users.

Definition department_enum : list string :=
  ["Sanitation"; "Public Works"; "Electrical"; "Water Department";
   "General Services"].

End Users.

(* ------------------------------------------------------------------ *)
(** ** The admin dashboard ([public/admin/script.js]) *)

Module Dashboard.

Definition pendingStatuses : list string :=
  ["Pending"; "Acknowledged"; "In Progress"].

(** The three values that [updateAnalytics] computes from the reply of the
    analytics handler. *)
Definition totalPending (statusCounts : list (string * Z)) : Z :=
  fold_left (fun sum s => sum + snd s)
            (filter (fun s => member (fst s) pendingStatuses) statusCounts) 0.

Definition totalResolved (statusCounts : list (string * Z)) : Z :=
  match find (fun s => (fst s =? "Resolved")%string) statusCounts with
  | Some s => if snd s =? 0 then 0 else snd s
  | None => 0
  end.

Definition mostReported (trendData : list (string * Z)) : string :=
  match trendData with
  | g :: _ => fst g
  | [] => "N/A"
  end.

(** [applyFilters], on the value of the status filter, the text of the
    search box and the master list [allIssues]; the result is the list
    handed to [renderTable]. *)
Definition applyFilters (statusFilter searchBox : string)
  (allIssues : list Issue) : list Issue :=
  let searchTerm := JSString.toLowerCase (JSString.trim searchBox) in
  let filteredIssues :=
    if (statusFilter =? "")%string then allIssues
    else filter (fun issue => (status issue =? statusFilter)%string) allIssues in
  if (searchTerm =? "")%string then filteredIssues
  else filter (fun issue => JSString.includes (issueId issue) searchTerm)
              filteredIssues.

(** The status menu of a row of the table: its option values, and the
    [disabled] attribute that [renderTable] puts on it. *)
Definition action_options : list string :=
  [""; "Acknowledged"; "In Progress"; "Resolved"].

Definition action_disabled (issue : Issue) : bool :=
  (status issue =? "Resolved")%string.

Inductive Control : Type := ActionSelect | AssignSelect.

(** The [change] listener of the table: the request it sends, if any, for
    the menu [control] of the row with [data-id = issueId] set to [value]. *)
Definition on_change (control : Control) (issueId value : string)
  : option Request :=
  if (issueId =? "")%string then None
  else match control with
       | ActionSelect =>
           if (value =? "")%string then None
           else Some (UpdateStatus (Some issueId) (Some value))
       | AssignSelect =>
           if (value =? "")%string then None
           else Some (AssignIssue (Some issueId) (Some value))
       end.

(** The requests that the table rendered from [shown] can send: a change of
    an enabled status menu to one of its options, or a change of an
    assignment menu. *)
Inductive sends (shown : list Issue) : Request -> Prop :=
| sends_status : forall issue value r,
    In issue shown -> action_disabled issue = false ->
    In value action_options ->
    on_change ActionSelect (issueId issue) value = Some r -> sends shown r
| sends_assign : forall issue value r,
    In issue shown ->
    on_change AssignSelect (issueId issue) value = Some r -> sends shown r.

End Dashboard.

(* ------------------------------------------------------------------ *)
(** ** The tracking form of the citizen page ([public/citizen/script.js]) *)

Module Citizen.

(** The check of the tracking form: the id that is looked up, or [None]
    when the form shows "Please enter a valid 6-digit Issue ID." and sends
    nothing. *)
Definition track_input (box : string) : option string :=
  let issueId := JSString.trim box in
  if (issueId =? "")%string || negb (SpecText.six_digits issueId)
  then None
  else Some issueId.

End Citizen.

(* ------------------------------------------------------------------ *)
(** ** Ways of running the server *)

(** The draw of a report is a value of [Math.random()]. *)
Definition draw_in_range (r : Request) : Prop :=
  match r with
  | Report rnd _ _ _ => (0 <= rnd)%Q /\ (rnd < 1)%Q
  | _ => True
  end.

(** [served t w]: as [reachable t w], with every draw in range. *)
Inductive served : Z -> World -> Prop :=
| served_start : forall t, served t empty_world
| served_step : forall t w now r,
    served t w -> t <= now -> draw_in_range r ->
    served now (fst (handle now r w)).

(** [operated t w]: the state is reached by reports of citizens and by
    requests that the dashboard sends while its table shows the current
    collection. *)
Inductive operated : Z -> World -> Prop :=
| operated_start : forall t, operated t empty_world
| operated_report : forall t w now rnd err file b,
    operated t w -> t <= now ->
    operated now (fst (post_report now rnd err file b w))
| operated_dashboard : forall t w now r,
    operated t w -> t <= now -> Dashboard.sends (issues w) r ->
    operated now (fst (handle now r w)).


Definition timestamps_ordered (t : Z) (i : Issue) : Prop :=
  createdAt i <= updatedAt i <= t
  /\ forall r, resolvedAt i = Some r -> createdAt i <= r <= updatedAt i.

(** [b] is a later state of the record [a]: what the citizen reported and
    the creation time are the same. *)
Definition same_report (a b : Issue) : Prop :=
  issueId b = issueId a /\ issueType b = issueType a
  /\ description b = description a /\ location b = location a
  /\ imageUrl b = imageUrl a /\ citizenContact b = citizenContact a
  /\ assignedDepartment b = assignedDepartment a
  /\ createdAt b = createdAt a.

(** The number of documents whose key is [k]. *)
Definition count_key (k : string) (keys : list string) : Z :=
  Z.of_nat (List.length (filter (String.eqb k) keys)).

Definition lifecycle_consistent (i : Issue) : Prop :=
  member (status i) status_enum = true
  /\ (resolvedAt i <> None <-> status i = "Resolved").

(** The ObjectId of a staff member, as the dashboard sends it. *)
Definition staff_id : string := "64b7f0c2a1d3e4f5a6b7c8d9".

(** A second report, on another category, and a little history of the two
    issues: ids 550000 and 325000. *)
Definition garbage_report : ReportBody :=
  mkReportBody (Some "Garbage Overflow") (Some "13.08") (Some "80.27")
               (Some "Market gate") (Some "Bins not emptied for a week")
               (Some "+919812345678").

Definition busy_log : list (Z * Request) :=
  [(1000, Report (1 # 2) None None pothole_report);
   (2000, Report (1 # 4) None None garbage_report);
   (3000, AssignIssue (Some "550000") (Some staff_id));
   (4000, UpdateStatus (Some "325000") (Some "Acknowledged"));
   (5000, UpdateStatus (Some "550000") (Some "Resolved"))].

Definition busy : World := run busy_log empty_world.

(** [sc] is a result of [$group] with a count on the keys [keys], in any
    order: one pair per key that occurs, with the number of its
    occurrences. *)
Definition groups_of (keys : list string) (sc : list (string * Z)) : Prop :=
  NoDup (map fst sc)
  /\ forall k n, In (k, n) sc <-> n = count_key k keys /\ 0 < n.

(** Larger counts first. *)
Definition by_count_desc (a b : string * Z) : Prop := snd b <= snd a.

(** The count that a list of groups gives for a key, 0 when it has none. *)
Definition count_in (k : string) (g : list (string * Z)) : Z :=
  match find (fun p => (fst p =? k)%string) g with
  | Some p => snd p
  | None => 0
  end.

(* ------------------------------------------------------------------ *)
(** ** Request bodies as the body parsers deliver them

    [server.js] installs [express.json()] and [express.urlencoded()] before
    the routes, so that the fields which the handlers read from [req.body]
    are not only texts. *)

Module Json.

(** The value of a field of [req.body]. *)
Inductive value : Type :=
| Undefined              (* the body has no such field *)
| Null
| Bool (b : bool)
| Num (n : JS.number)
| Str (s : string)
| Compound               (* an array or an object *).

(** [!v]. *)
Definition falsy (v : value) : bool :=
  match v with
  | Undefined | Null => true
  | Bool b => negb b
  | Num JS.NaN => true
  | Num (JS.Infinite _) => false
  | Num (JS.Finite q) => Qeq_bool q 0
  | Str s => (s =? "")%string
  | Compound => false
  end.

(** The falsy values, one by one. *)
Inductive Falsy : value -> Prop :=
| Falsy_undefined : Falsy Undefined
| Falsy_null : Falsy Null
| Falsy_false : Falsy (Bool false)
| Falsy_zero : forall q, (q == 0)%Q -> Falsy (Num (JS.Finite q))
| Falsy_NaN : Falsy (Num JS.NaN)
| Falsy_empty : Falsy (Str "").


(** A form field as a value, and a value as a form field when it is one. *)
Definition of_field (v : option string) : value :=
  match v with
  | None => Undefined
  | Some s => Str s
  end.

Definition as_field (v : value) : option (option string) :=
  match v with
  | Undefined => Some None
  | Str s => Some (Some s)
  | _ => None
  end.

End Json.

(* ------------------------------------------------------------------ *)
(** ** The three POST handlers on any request body *)

Module Wire.

(** What a handler does with a request.  [Replied w r]: it leaves the state
    [w] and sends the reply [r].  [Cast codes]: every field that the handler
    tests is truthy and some field is not a text, so that a number, a
    boolean, an array or an object reaches the casts of Mongoose; these are
    not modelled, and the handler then sends a reply whose status is one of
    [codes], the ones that remain in its [try] block and its [catch]. *)
Inductive Outcome : Type :=
| Replied (w : World) (r : Reply)
| Cast (codes : list Z).

(** The handler can send a reply of status [c]. *)
Definition may_reply (o : Outcome) (c : Z) : Prop :=
  match o with
  | Replied _ r => code r = c
  | Cast codes => In c codes
  end.

(** The fields that the report handler reads from [req.body]. *)
Record ReportFields : Type := mkReportFields {
  f_issueType : Json.value;
  f_latitude : Json.value;
  f_longitude : Json.value;
  f_landmark : Json.value;
  f_description : Json.value;
  f_citizenContact : Json.value
}.

Definition of_form (b : ReportBody) : ReportFields :=
  mkReportFields (Json.of_field (rb_issueType b)) (Json.of_field (rb_latitude b))
                 (Json.of_field (rb_longitude b)) (Json.of_field (rb_landmark b))
                 (Json.of_field (rb_description b))
                 (Json.of_field (rb_citizenContact b)).

(** The form behind the fields, when each of them is a text or is not
    there. *)
Definition as_form (b : ReportFields) : option ReportBody :=
  match Json.as_field (f_issueType b), Json.as_field (f_latitude b),
        Json.as_field (f_longitude b), Json.as_field (f_landmark b),
        Json.as_field (f_description b), Json.as_field (f_citizenContact b) with
  | Some issueType, Some latitude, Some longitude, Some landmark,
    Some description, Some citizenContact =>
      Some (mkReportBody issueType latitude longitude landmark description
                         citizenContact)
  | _, _, _, _, _, _ => None
  end.

(** [!issueType || !latitude || !longitude || !description ||
    !citizenContact]. *)
Definition missing_required (b : ReportFields) : bool :=
  Json.falsy (f_issueType b) || Json.falsy (f_latitude b)
  || Json.falsy (f_longitude b) || Json.falsy (f_description b)
  || Json.falsy (f_citizenContact b).

(** POST /api/report.  [body] is [req.body], [None] when no parser set it:
    the destructuring inside the [try] then throws. *)
Definition post_report (now : Z) (rnd : Q) (err file : option string)
  (body : option ReportFields) (w : World) : Outcome :=
  if negb (JS.falsy err)
  then Replied w (mkReply 400 (Some "File upload error.") (UploadError (JS.text err)))
  else
    match body with
    | None =>
        Replied w (mkReply 500
                     (Some "An unexpected server error occurred while submitting your report.")
                     NoData)
    | Some b =>
        if missing_required b
        then Replied w (mkReply 400
                          (Some "Missing required fields. Please fill out all parts of the form.")
                          NoData)
        else
          match as_form b with
          | Some form =>
              Replied (fst (Api.post_report now rnd err file form w))
                      (snd (Api.post_report now rnd err file form w))
          | None => Cast [201; 500]
          end
    end.

(** The fields that the status handler reads from [req.body]. *)
Record StatusFields : Type := mkStatusFields {
  s_issueId : Json.value;
  s_status : Json.value
}.

(** POST /api/update_status. *)
Definition post_update_status (now : Z) (body : option StatusFields) (w : World)
  : Outcome :=
  match body with
  | None => Replied w (mkReply 500 (Some "Failed to update issue status.") NoData)
  | Some b =>
      if Json.falsy (s_issueId b) || Json.falsy (s_status b)
      then Replied w (mkReply 400 (Some "Issue ID and a new status are required.") NoData)
      else
        match Json.as_field (s_issueId b), Json.as_field (s_status b) with
        | Some issueId, Some status =>
            Replied (fst (Api.post_update_status now issueId status w))
                    (snd (Api.post_update_status now issueId status w))
        | _, _ => Cast [200; 404; 500]
        end
  end.

(** The fields that the assignment handler reads from [req.body]. *)
Record AssignFields : Type := mkAssignFields {
  a_issueId : Json.value;
  a_userId : Json.value
}.

(** POST /api/assign_issue. *)
Definition post_assign_issue (now : Z) (body : option AssignFields) (w : World)
  : Outcome :=
  match body with
  | None => Replied w (mkReply 500 (Some "Failed to assign issue.") NoData)
  | Some b =>
      if Json.falsy (a_issueId b) || Json.falsy (a_userId b)
      then Replied w (mkReply 400
                        (Some "Issue ID and User ID are required for assignment.")
                        NoData)
      else
        match Json.as_field (a_issueId b), Json.as_field (a_userId b) with
        | Some issueId, Some userId =>
            Replied (fst (Api.post_assign_issue now issueId userId w))
                    (snd (Api.post_assign_issue now issueId userId w))
        | _, _ => Cast [200; 404; 500]
        end
  end.



End Wire.

(* ------------------------------------------------------------------ *)
(** ** The staff member shown in a reply ([populate]) *)

Module Populate.

(** A document of the [users] collection ([server/models/User.js]); the id
    is the text of its [_id], 24 hexadecimal digits in lower case. *)
Record User : Type := mkUser {
  user_id : string;
  user_name : string;
  user_email : string;
  user_password : string;
  user_department : string
}.

(** What a reply shows in the place of [assignedTo]. *)
Inductive Ref : Type :=
| Absent                 (* the issue has no [assignedTo]: no such field *)
| Dangling               (* no user has the id: [null] *)
| Staff (_id name : string) (department : option string).

(** [.populate('assignedTo', 'name department')] and
    [.populate('assignedTo', 'name')], on the [assignedTo] of the document:
    the selected fields of the user with that id. *)
Definition populate (users : list User) (department : bool)
  (assignedTo : option string) : Ref :=
  match assignedTo with
  | None => Absent
  | Some oid =>
      match find (fun u => (user_id u =? oid)%string) users with
      | None => Dangling
      | Some u => Staff (user_id u) (user_name u)
                        (if department then Some (user_department u) else None)
      end
  end.

(** The populated [assignedTo] of the document of a reply. *)
Definition shown (users : list User) (department : bool) (r : Reply) : Ref :=
  match payload r with
  | Document issue => populate users department (assignedTo issue)
  | _ => Absent
  end.

(** POST /api/assign_issue and GET /api/track_status/:issue_id with what
    they show: the reply is the one of [Api], whose document is the stored
    one, and the [Ref] is what the JSON sent has in the place of its
    [assignedTo]. *)
Definition post_assign_issue (users : list User) (now : Z)
  (issueId userId : option string) (w : World) : World * Reply * Ref :=
  let (w', r) := Api.post_assign_issue now issueId userId w in
  (w', r, shown users true r).

Definition get_track_status (users : list User) (issue_id : string) (w : World)
  : Reply * Ref :=
  let r := Api.get_track_status issue_id w in (r, shown users false r).

End Populate.

(* ------------------------------------------------------------------ *)
(** ** More sample requests *)



(** A no-break space, U+00A0, in UTF-8. *)
Definition nbsp : string := String (ascii_of_nat 194) (String (ascii_of_nat 160) "").

(** A staff room with one member, whose id is [staff_id]. *)
Definition staff_room : list Populate.User :=
  [Populate.mkUser staff_id "Asha Rao" "asha.rao@city.example" "secret"
                   "Public Works"].

(* ------------------------------------------------------------------ *)
(** ** Facts about the JavaScript primitives *)

Lemma falsy_spec (v : option string) :
  JS.falsy v = true <-> SpecText.absent_or_empty v.
Proof.
  unfold SpecText.absent_or_empty; destruct v as [s|]; simpl.
  - rewrite String.eqb_eq; split.
    + intros ->; now right.
    + intros [H|H]; [discriminate | now injection H].
  - split; [now left | reflexivity].
Qed.

Lemma truthy_text (v : option string) :
  JS.falsy v = false -> v = Some (JS.text v) /\ JS.text v <> "".
Proof.
  destruct v as [s|]; simpl; [|discriminate].
  rewrite String.eqb_neq; auto.
Qed.

(* ------------------------------------------------------------------ *)
(** ** The department router *)

(** C4. [route] is a total function on category strings: it always returns
    one of the five departments, sends Pothole to Public Works, Garbage
    Overflow to Sanitation, Streetlight Outage to Electrical, Water Leakage
    to Water Department, and every other text (Other included) to the
    default department General Services. *)
Theorem route_table (category : string) :
  In (route category) SpecText.departments
  /\ (category = "Pothole" -> route category = "Public Works")
  /\ (category = "Garbage Overflow" -> route category = "Sanitation")
  /\ (category = "Streetlight Outage" -> route category = "Electrical")
  /\ (category = "Water Leakage" -> route category = "Water Department")
  /\ (category <> "Pothole" -> category <> "Garbage Overflow" ->
      category <> "Streetlight Outage" -> category <> "Water Leakage" ->
      route category = "General Services").
Proof.
  unfold route.
  repeat split.
  - destruct_eqb; simpl; tauto.
  - intros ->; reflexivity.
  - intros ->; reflexivity.
  - intros ->; reflexivity.
  - intros ->; reflexivity.
  - intros H1 H2 H3 H4.
    apply String.eqb_neq in H1, H2, H3, H4.
    now rewrite H1, H2, H3, H4.
Qed.

Lemma route_table_witness :
  route "Pothole" = "Public Works" /\ route "Other" = "General Services".
Proof.
  split.
  - apply (route_table "Pothole"); reflexivity.
  - apply (route_table "Other"); discriminate.
Defined.

(* ------------------------------------------------------------------ *)
(** ** POST /api/report *)

(** The four ways out of the report handler. *)
Lemma post_report_cases now rnd err file b w :
  (JS.falsy err = false
   /\ post_report now rnd err file b w
      = (w, mkReply 400 (Some "File upload error.") (UploadError (JS.text err))))
  \/ (JS.falsy err = true /\ missing_required b = true
      /\ post_report now rnd err file b w
         = (w, mkReply 400
                 (Some "Missing required fields. Please fill out all parts of the form.")
                 NoData))
  \/ (JS.falsy err = true /\ missing_required b = false
      /\ (exists e, Store.insert (newIssue now rnd file b) (issues w) = inl e)
      /\ post_report now rnd err file b w
         = (w, mkReply 500
                 (Some "An unexpected server error occurred while submitting your report.")
                 NoData))
  \/ (JS.falsy err = true /\ missing_required b = false
      /\ exists c, Store.insert (newIssue now rnd file b) (issues w) = inr c
         /\ post_report now rnd err file b w
            = (mkWorld c (outbox w ++ [(citizenContact (newIssue now rnd file b),
                                        confirmationMessage (newIssue now rnd file b))])%list,
               mkReply 201 (Some "Issue reported successfully!")
                       (TrackingId (issueId (newIssue now rnd file b))))).
Proof.
  unfold post_report.
  destruct (JS.falsy err); simpl; [|now left].
  destruct (missing_required b); [right; left; auto|].
  destruct (Store.insert (newIssue now rnd file b) (issues w)) as [e|c].
  - right; right; left; repeat split; eauto.
  - right; right; right; repeat split; eauto.
Qed.

Lemma missing_required_spec (b : ReportBody) :
  missing_required b = true
  <-> SpecText.absent_or_empty (rb_issueType b)
      \/ SpecText.absent_or_empty (rb_latitude b)
      \/ SpecText.absent_or_empty (rb_longitude b)
      \/ SpecText.absent_or_empty (rb_description b)
      \/ SpecText.absent_or_empty (rb_citizenContact b).
Proof.
  unfold missing_required.
  rewrite !orb_true_iff, !falsy_spec. tauto.
Qed.

(** A form field is falsy as a value exactly when it is as a field. *)
Lemma as_field_falsy v f : Json.as_field v = Some f -> JS.falsy f = Json.falsy v.
Proof. destruct v; simpl; intros H; try discriminate H; now injection H as <-. Qed.

Lemma of_field_as_field v : Json.as_field (Json.of_field v) = Some v.
Proof. now destruct v. Qed.

Lemma as_form_of_form b : Wire.as_form (Wire.of_form b) = Some b.
Proof.
  unfold Wire.as_form, Wire.of_form; cbn [Wire.f_issueType Wire.f_latitude
    Wire.f_longitude Wire.f_landmark Wire.f_description Wire.f_citizenContact].
  rewrite !of_field_as_field. now destruct b.
Qed.

(** [!v] is true of the falsy values and of no other. *)
Lemma Falsy_spec v : Json.falsy v = true <-> Json.Falsy v.
Proof.
  destruct v as [| |b|n|s|]; simpl.
  - split; [constructor|reflexivity].
  - split; [constructor|reflexivity].
  - destruct b; simpl; split; try discriminate; try constructor; try reflexivity.
    intros H; inversion H.
  - destruct n as [|neg|q].
    + split; [constructor|reflexivity].
    + split; [discriminate|intros H; inversion H].
    + rewrite Qeq_bool_iff. split; [now constructor|intros H; now inversion H].
  - rewrite String.eqb_eq. split; [intros ->; constructor|intros H; now inversion H].
  - split; [discriminate|intros H; inversion H].
Qed.







(** C10. When the report handler refuses a submission, because the upload
    failed or because a required field is missing, the reply is an HTTP 400
    and the world is unchanged: no issue is stored and no notification is
    sent.  The same holds of every reply other than 201. *)
Theorem rejected_report_changes_nothing now rnd err file b w :
  (JS.falsy err = false \/ missing_required b = true ->
   code (snd (post_report now rnd err file b w)) = 400
   /\ issues (fst (post_report now rnd err file b w)) = issues w
   /\ outbox (fst (post_report now rnd err file b w)) = outbox w)
  /\ (code (snd (post_report now rnd err file b w)) <> 201 ->
      fst (post_report now rnd err file b w) = w).
Proof.
  destruct (post_report_cases now rnd err file b w)
    as [[He H]|[(He & Hm & H)|[(He & Hm & _ & H)|(He & Hm & c & _ & H)]]];
    rewrite H; simpl; split; auto.
  - intros [?|?]; congruence.
  - intros [?|?]; congruence.
  - intros Hc; now contradiction Hc.
Qed.

Lemma rejected_report_changes_nothing_witness :
  code (snd (post_report 2000 (1 # 3) upload_refused None pothole_report one_pending)) = 400
  /\ issues (fst (post_report 2000 (1 # 3) upload_refused None pothole_report one_pending))
     = issues one_pending
  /\ outbox (fst (post_report 2000 (1 # 3) None None report_without_category one_pending))
     = outbox one_pending
  /\ fst (post_report 2000 (1 # 2) None None pothole_report one_pending) = one_pending.
Proof.
  split; [|split; [|split]].
  - apply (rejected_report_changes_nothing 2000 (1 # 3) upload_refused None
             pothole_report one_pending).
    left; reflexivity.
  - apply (rejected_report_changes_nothing 2000 (1 # 3) upload_refused None
             pothole_report one_pending).
    left; reflexivity.
  - apply (rejected_report_changes_nothing 2000 (1 # 3) None None
             report_without_category one_pending).
    right; reflexivity.
  - apply (rejected_report_changes_nothing 2000 (1 # 2) None None
             pothole_report one_pending).
    vm_compute; discriminate.
Defined.

(* ------------------------------------------------------------------ *)
(** ** Updating one document of the collection *)

Lemma update_first_split id f c c' u :
  Store.update_first id f c = Some (c', u) ->
  exists l1 i l2,
    c = (l1 ++ i :: l2)%list /\ c' = (l1 ++ f i :: l2)%list /\ u = f i
    /\ Store.has_id id i = true
    /\ Forall (fun x => Store.has_id id x = false) l1.
Proof.
  revert c' u; induction c as [|a r IH]; simpl; intros c' u H; [discriminate|].
  destruct (Store.has_id id a) eqn:Ha.
  - injection H as <- <-.
    exists [], a, r; repeat split; auto.
  - destruct (Store.update_first id f r) as [[r' u']|] eqn:Hr; [|discriminate].
    injection H as <- <-.
    destruct (IH r' u' eq_refl) as (l1 & i & l2 & -> & -> & -> & Hi & Hl).
    exists (a :: l1), i, l2; repeat split; auto.
Qed.

Lemma find_split id (l1 l2 : list Issue) i :
  Forall (fun x => Store.has_id id x = false) l1 ->
  Store.has_id id i = true ->
  Store.findOne id (l1 ++ i :: l2) = Some i.
Proof.
  unfold Store.findOne.
  induction 1 as [|a l Ha Hl IH]; simpl; intros Hi.
  - now rewrite Hi.
  - rewrite Ha; auto.
Qed.

Lemma update_first_none id f c :
  Store.findOne id c = None -> Store.update_first id f c = None.
Proof.
  unfold Store.findOne.
  induction c as [|a r IH]; simpl; [reflexivity|].
  destruct (Store.has_id id a); [discriminate|].
  intros H; now rewrite (IH H).
Qed.

Lemma update_first_some id f c i :
  Store.findOne id c = Some i ->
  exists c', Store.update_first id f c = Some (c', f i).
Proof.
  unfold Store.findOne.
  induction c as [|a r IH]; simpl; [discriminate|].
  destruct (Store.has_id id a).
  - intros [= ->]; eauto.
  - intros H; destruct (IH H) as [c' ->]; eauto.
Qed.

(** Rewriting one document with a function that keeps the tracking id
    keeps the list of tracking ids. *)
Lemma update_first_ids id f c c' u :
  Store.update_first id f c = Some (c', u) ->
  (forall i, issueId (f i) = issueId i) ->
  map issueId c' = map issueId c.
Proof.
  intros H Hf.
  destruct (update_first_split _ _ _ _ _ H) as (l1 & i & l2 & -> & -> & _).
  rewrite !map_app; simpl; now rewrite Hf.
Qed.

Lemma update_first_Forall2 id f c c' u :
  Store.update_first id f c = Some (c', u) ->
  Forall2 (fun a b => b = a \/ b = f a) c c'.
Proof.
  intros H.
  destruct (update_first_split _ _ _ _ _ H) as (l1 & i & l2 & -> & -> & _).
  assert (Hrefl : forall l : list Issue, Forall2 (fun a b => b = a \/ b = f a) l l)
    by (induction l; constructor; auto).
  apply Forall2_app; [|constructor; [now right|]]; apply Hrefl.
Qed.

Lemma update_first_Forall (P : Issue -> Prop) id f c c' u :
  (forall i, P i -> P (f i)) ->
  Store.update_first id f c = Some (c', u) ->
  Forall P c -> Forall P c'.
Proof.
  intros Hf H Hc.
  destruct (update_first_split _ _ _ _ _ H) as (l1 & i & l2 & -> & -> & _).
  apply Forall_app in Hc as [H1 H2]; inversion H2; subst.
  apply Forall_app; split; auto.
Qed.

Lemma update_first_lookup id f c c' u :
  Store.update_first id f c = Some (c', u) ->
  (forall i, issueId (f i) = issueId i) ->
  exists i, Store.findOne id c = Some i /\ u = f i /\ Store.findOne id c' = Some u.
Proof.
  intros H Hf.
  destruct (update_first_split _ _ _ _ _ H) as (l1 & i & l2 & -> & -> & -> & Hi & Hl).
  exists i; repeat split.
  - now apply find_split.
  - apply find_split; auto.
    unfold Store.has_id in *; now rewrite Hf.
Qed.

(* ------------------------------------------------------------------ *)
(** ** POST /api/update_status *)

(** The three ways out of the status handler. *)
Lemma post_update_status_cases now id s w :
  ((JS.falsy id = true \/ JS.falsy s = true)
   /\ post_update_status now id s w
      = (w, mkReply 400 (Some "Issue ID and a new status are required.") NoData))
  \/ (JS.falsy id = false /\ JS.falsy s = false
      /\ Store.findOne (JS.text id) (issues w) = None
      /\ post_update_status now id s w
         = (w, mkReply 404 (Some "Issue not found with that ID.") NoData))
  \/ (JS.falsy id = false /\ JS.falsy s = false
      /\ exists i c,
           Store.findOne (JS.text id) (issues w) = Some i
           /\ Store.update_first (JS.text id)
                (Store.apply_set now (updateData now (JS.text s))) (issues w)
              = Some (c, Store.apply_set now (updateData now (JS.text s)) i)
           /\ post_update_status now id s w
              = (mkWorld c
                   (outbox w ++ [(citizenContact i,
                                  updateMessage (JS.text id) (JS.text s))])%list,
                 mkReply 200 (Some "Status updated successfully!")
                   (Document (Store.apply_set now (updateData now (JS.text s)) i)))).
Proof.
  unfold post_update_status, Store.findOneAndUpdate.
  destruct (JS.falsy id) eqn:Hid; simpl; [left; auto|].
  destruct (JS.falsy s) eqn:Hs; simpl; [left; auto|].
  destruct (Store.findOne (JS.text id) (issues w)) as [i|] eqn:Hf.
  - right; right; repeat split.
    destruct (update_first_some _ (Store.apply_set now (updateData now (JS.text s)))
                _ _ Hf) as [c Hc].
    exists i, c; rewrite Hc; auto.
  - right; left; repeat split.
    now rewrite (update_first_none _ _ _ Hf).
Qed.

(** C2: the handler at an existing issue and a status outside the
    enumerated set.  The reply is 200, not a validation error, and the
    unknown status is what the collection holds afterwards. *)
Theorem update_status_accepts_unknown_status :
  Schema.member unknown_status status_enum = false
  /\ exists i u,
       Store.findOne "550000" (issues one_pending) = Some i
       /\ status i = "Pending"
       /\ snd (post_update_status 2000 (Some "550000") (Some unknown_status) one_pending)
          = mkReply 200 (Some "Status updated successfully!") (Document u)
       /\ Store.findOne "550000"
            (issues (fst (post_update_status 2000 (Some "550000") (Some unknown_status)
                            one_pending)))
          = Some u
       /\ status u = unknown_status.
Proof.
  split; [reflexivity|].
  eexists; eexists; repeat split; vm_compute; reflexivity.
Qed.

(** The parts of C2 that the handler keeps: an unknown tracking id is
    answered with 404 and changes nothing, and a status of the schema is
    stored on the issue that has the tracking id. *)
Lemma update_status_not_found_or_stored now id s w :
  JS.falsy id = false -> JS.falsy s = false ->
  (Store.findOne (JS.text id) (issues w) = None ->
   post_update_status now id s w
   = (w, mkReply 404 (Some "Issue not found with that ID.") NoData))
  /\ (forall i, Store.findOne (JS.text id) (issues w) = Some i ->
      exists u,
        snd (post_update_status now id s w)
        = mkReply 200 (Some "Status updated successfully!") (Document u)
        /\ Store.findOne (JS.text id) (issues (fst (post_update_status now id s w)))
           = Some u
        /\ status u = JS.text s).
Proof.
  intros Hid Hs.
  destruct (post_update_status_cases now id s w)
    as [[[H|H] _]|[(_ & _ & Hf & H)|(_ & _ & i & c & Hf & Hu & H)]];
    try congruence; rewrite H; simpl; split; try congruence.
  intros j Hj; eexists; repeat split.
  destruct (update_first_lookup _ _ _ _ _ Hu (fun _ => eq_refl)) as (k & _ & _ & Hl).
  exact Hl.
Qed.

(* ------------------------------------------------------------------ *)
(** ** POST /api/assign_issue *)

Lemma post_assign_issue_effect now id userId w :
  (fst (post_assign_issue now id userId w) = w)
  \/ exists issue oid u,
       Store.findOne (JS.text id) (issues w) = Some issue
       /\ Store.update_first (issueId issue) (Store.with_assignedTo now oid) (issues w)
          = Some (issues (fst (post_assign_issue now id userId w)), u)
       /\ outbox (fst (post_assign_issue now id userId w)) = outbox w.
Proof.
  unfold post_assign_issue.
  destruct (JS.falsy id || JS.falsy userId); [now left|].
  destruct (Store.findOne (JS.text id) (issues w)) as [issue|] eqn:Hf; [|now left].
  unfold Store.save_assignedTo.
  destruct (castObjectId (JS.text userId)) as [oid|]; [|now left].
  destruct (negb (validate issue)); [now left|].
  destruct (match assignedTo issue with
            | Some old => (old =? oid)%string
            | None => false
            end).
  - left; simpl; now destruct w.
  - destruct (Store.update_first (issueId issue) (Store.with_assignedTo now oid)
                (issues w)) as [[c u]|] eqn:Hu; [|now left].
    right; exists issue, oid, u; simpl; auto.
Qed.

(* ------------------------------------------------------------------ *)
(** ** What a request does to the collection *)

Lemma insert_inr i c c' :
  Store.insert i c = inr c' ->
  validate i = true /\ geo_indexable (location i) = true
  /\ existsb (Store.has_id (issueId i)) c = false /\ c' = (c ++ [i])%list.
Proof.
  unfold Store.insert.
  destruct (validate i); simpl; [|discriminate].
  destruct (geo_indexable (location i)); simpl; [|discriminate].
  destruct (existsb (Store.has_id (issueId i)) c); [discriminate|].
  intros [= <-]; auto.
Qed.

Lemma handle_effect now r w :
  effect now (issues w) (issues (fst (handle now r w))).
Proof.
  destruct r as [rnd err file b|id s|id userId|id|]; simpl;
    try (now apply Unchanged).
  - destruct (post_report_cases now rnd err file b w)
      as [[He H]|[(He & Hm & H)|[(He & Hm & _ & H)|(He & Hm & c & Hi & H)]]];
      rewrite H; simpl; try (now apply Unchanged).
    eapply Inserted; eassumption.
  - destruct (post_update_status_cases now id s w)
      as [[_ H]|[(_ & _ & _ & H)|(_ & _ & i & c & _ & Hu & H)]];
      rewrite H; simpl; try (now apply Unchanged).
    eapply StatusSet; eassumption.
  - destruct (post_assign_issue_effect now id userId w)
      as [H|(issue & oid & u & _ & Hu & _)].
    + rewrite H; now apply Unchanged.
    + eapply Assigned; eassumption.
Qed.

Lemma effect_Forall (P : Issue -> Prop) now c c' :
  (forall rnd file b, P (newIssue now rnd file b)) ->
  (forall s i, P i -> P (Store.apply_set now (updateData now s) i)) ->
  (forall oid i, P i -> P (Store.with_assignedTo now oid i)) ->
  effect now c c' -> Forall P c -> Forall P c'.
Proof.
  intros Hnew Hset Hassign [->|rnd file b Hi|id s u Hu|id oid u Hu] Hc; auto.
  - apply insert_inr in Hi as (_ & _ & _ & ->).
    apply Forall_app; split; auto.
  - eapply update_first_Forall; [|exact Hu|exact Hc]; auto.
  - eapply update_first_Forall; [|exact Hu|exact Hc]; auto.
Qed.

(** A property of the stored issues that a new report establishes, that the
    two updates keep and that the passing of time keeps, holds in every
    reachable state. *)
Lemma reachable_Forall (P : Z -> Issue -> Prop) :
  (forall t t' i, t <= t' -> P t i -> P t' i) ->
  (forall now rnd file b, P now (newIssue now rnd file b)) ->
  (forall now s i, P now i -> P now (Store.apply_set now (updateData now s) i)) ->
  (forall now oid i, P now i -> P now (Store.with_assignedTo now oid i)) ->
  forall t w, reachable t w -> Forall (P t) (issues w).
Proof.
  intros Hmono Hnew Hset Hassign t w H.
  induction H as [t|t w now r H IH Hle]; [constructor|].
  apply effect_Forall with (now := now) (c := issues w); auto using handle_effect.
  eapply Forall_impl; [|exact IH]; intros i; now apply Hmono.
Qed.

Lemma has_id_existsb id c :
  existsb (Store.has_id id) c = true <-> In id (map issueId c).
Proof.
  rewrite existsb_exists, in_map_iff; unfold Store.has_id.
  split; intros (i & H1 & H2); exists i.
  - apply String.eqb_eq in H2; auto.
  - split; [auto|now apply String.eqb_eq].
Qed.

(** No request makes two documents share a tracking id. *)
Lemma effect_NoDup now c c' :
  effect now c c' -> NoDup (map issueId c) -> NoDup (map issueId c').
Proof.
  intros [->|rnd file b Hi|id s u Hu|id oid u Hu] Hc; auto.
  - generalize dependent (newIssue now rnd file b); intros i Hi.
    apply insert_inr in Hi as (_ & _ & Hfresh & ->).
    rewrite map_app; simpl.
    apply NoDup_app; auto.
    + constructor; [intros []|constructor].
    + intros a Ha [<-|[]].
      apply has_id_existsb in Ha; congruence.
  - now rewrite (update_first_ids _ _ _ _ _ Hu (fun _ => eq_refl)).
  - now rewrite (update_first_ids _ _ _ _ _ Hu (fun _ => eq_refl)).
Qed.

Lemma run_reachable log :
  forall t w, reachable t w -> nondecreasing t log = true ->
              reachable (end_time t log) (run log w).
Proof.
  induction log as [|[now r] rest IH]; simpl; intros t w Hw Hlog; auto.
  apply andb_true_iff in Hlog as [Hle Hrest].
  apply IH; auto.
  apply reachable_step with (t := t); auto.
  now apply Z.leb_le.
Qed.


Lemma one_resolved_reachable : reachable 7201000 one_resolved.
Proof.
  apply (run_reachable resolved_log 0 empty_world); [constructor|reflexivity].
Qed.

(* ------------------------------------------------------------------ *)
(** ** Lifecycle properties *)

Lemma apply_set_written now s a :
  status_written now s a (Store.apply_set now (updateData now s) a).
Proof.
  unfold status_written, Store.apply_set, updateData; simpl.
  now destruct (s =? "Resolved")%string.
Qed.

(** C9. The tracking id never changes after creation.  A status update
    leaves the list of tracking ids as it is, and rewrites at most one
    record, in which it writes [status] (and [resolvedAt] when the new
    status is Resolved); an assignment leaves the list of tracking ids as it
    is and rewrites at most one record, in which it writes [assignedTo].
    In both cases the only other field that moves is [updatedAt], the
    modification stamp that the store maintains. *)
Theorem tracking_id_immutable now w :
  (forall id s,
      map issueId (issues (fst (post_update_status now id s w)))
      = map issueId (issues w)
      /\ Forall2 (fun a b => b = a \/ status_written now (JS.text s) a b)
                 (issues w) (issues (fst (post_update_status now id s w))))
  /\ (forall id userId,
      map issueId (issues (fst (post_assign_issue now id userId w)))
      = map issueId (issues w)
      /\ Forall2 (fun a b => b = a \/ assignedTo_written now a b)
                 (issues w) (issues (fst (post_assign_issue now id userId w)))).
Proof.
  assert (Hrefl : forall (R : Issue -> Issue -> Prop) (l : list Issue),
             Forall2 (fun a b => b = a \/ R a b) l l)
    by (induction l; constructor; auto).
  split.
  - intros id s.
    destruct (post_update_status_cases now id s w)
      as [[_ H]|[(_ & _ & _ & H)|(_ & _ & i & c & _ & Hu & H)]];
      rewrite H; simpl; auto.
    split.
    + exact (update_first_ids _ _ _ _ _ Hu (fun _ => eq_refl)).
    + apply update_first_Forall2 in Hu.
      eapply Forall2_impl; [|exact Hu]; simpl.
      intros a b [->| ->]; [now left|right; apply apply_set_written].
  - intros id userId.
    destruct (post_assign_issue_effect now id userId w)
      as [H|(issue & oid & u & _ & Hu & _)].
    + rewrite H; auto.
    + split.
      * exact (update_first_ids _ _ _ _ _ Hu (fun _ => eq_refl)).
      * apply update_first_Forall2 in Hu.
        eapply Forall2_impl; [|exact Hu]; simpl.
        intros a b [->| ->]; [now left|right; now exists oid].
Qed.




(** C6. In a state reached at instants no later than [now], a successful
    status update to Resolved served at [now] stores and returns a record
    whose [resolvedAt] is [now], which is no earlier than its [createdAt];
    a successful update to any other status keeps the [resolvedAt] that the
    record had, so it stays absent when it was absent. *)
Theorem resolved_timestamp t w now id :
  reachable t w -> t <= now ->
  (forall w' r,
      post_update_status now id (Some "Resolved") w = (w', r) -> code r = 200 ->
      exists u, payload r = Document u
                /\ Store.findOne (JS.text id) (issues w') = Some u
                /\ resolvedAt u = Some now /\ createdAt u <= now)
  /\ (forall X w' r,
      X <> "Resolved" ->
      post_update_status now id (Some X) w = (w', r) -> code r = 200 ->
      exists i u, Store.findOne (JS.text id) (issues w) = Some i
                  /\ Store.findOne (JS.text id) (issues w') = Some u
                  /\ payload r = Document u
                  /\ resolvedAt u = resolvedAt i
                  /\ (resolvedAt i = None -> resolvedAt u = None)).
Proof.
  intros Hw Hle.
  assert (Hc : Forall (fun i => createdAt i <= t) (issues w)).
  { revert Hw; apply (reachable_Forall (fun t i => createdAt i <= t)); simpl; intros; lia. }
  split.
  - intros w' r H Hr.
    destruct (post_update_status_cases now id (Some "Resolved") w)
      as [[_ H']|[(_ & _ & _ & H')|(_ & _ & i & c & Hf & Hu & H')]];
      rewrite H' in H; injection H as <- <-; try discriminate Hr.
    destruct (update_first_lookup _ _ _ _ _ Hu (fun _ => eq_refl)) as (k & _ & _ & Hl).
    eexists; repeat split; [exact Hl|].
    simpl. apply find_some in Hf as [Hi _].
    rewrite Forall_forall in Hc. specialize (Hc _ Hi). lia.
  - intros X w' r HX H Hr.
    destruct (post_update_status_cases now id (Some X) w)
      as [[_ H']|[(_ & _ & _ & H')|(_ & _ & i & c & Hf & Hu & H')]];
      rewrite H' in H; injection H as <- <-; try discriminate Hr.
    destruct (update_first_lookup _ _ _ _ _ Hu (fun _ => eq_refl)) as (k & _ & _ & Hl).
    assert (Hkeep : resolvedAt (Store.apply_set now (updateData now (JS.text (Some X))) i)
                    = resolvedAt i).
    { simpl. apply String.eqb_neq in HX. now rewrite HX. }
    exists i; eexists; repeat split; [exact Hf|exact Hl|exact Hkeep|].
    intros Hn; rewrite <- Hn; exact Hkeep.
Qed.

Lemma resolved_timestamp_witness :
  (exists u, Store.findOne "550000"
               (issues (fst (post_update_status 7201000 (Some "550000") (Some "Resolved")
                               one_pending))) = Some u
             /\ resolvedAt u = Some 7201000 /\ createdAt u <= 7201000)
  /\ (exists u, Store.findOne "550000"
                  (issues (fst (post_update_status 7201000 (Some "550000")
                                  (Some "In Progress") one_pending))) = Some u
                /\ resolvedAt u = None).
Proof.
  assert (Hr : reachable 1000 one_pending).
  { apply (run_reachable [(1000, Report (1 # 2) None None pothole_report)] 0 empty_world);
      [constructor|reflexivity]. }
  assert (Hle : 1000 <= 7201000) by lia.
  destruct (resolved_timestamp 1000 one_pending 7201000 (Some "550000") Hr Hle)
    as [H1 H2].
  split.
  - destruct (H1 _ _ (surjective_pairing _)) as (u & _ & Hf & Hs & Hc);
      [reflexivity|].
    exists u; auto.
  - assert (HX : "In Progress" <> "Resolved") by discriminate.
    destruct (H2 "In Progress" _ _ HX (surjective_pairing _))
      as (i & u & Hi & Hf & _ & _ & Hn); [reflexivity|].
    exists u; split; [exact Hf|].
    apply Hn. vm_compute in Hi. injection Hi as <-. reflexivity.
Defined.

(* ------------------------------------------------------------------ *)
(** ** Tracking ids *)


Lemma insert_existing i c :
  In (issueId i) (map issueId c) -> exists e, Store.insert i c = inl e.
Proof.
  intros H; apply has_id_existsb in H.
  unfold Store.insert.
  destruct (negb (validate i)); eauto.
  destruct (negb (geo_indexable (location i))); eauto.
  rewrite H; eauto.
Qed.

(** C7. The tracking id is unique, and the insert enforces it.  Inserting
    an issue whose tracking id is already stored always fails, with the
    DuplicateKey condition when the document itself is acceptable; every
    reachable collection has pairwise distinct tracking ids; and a report
    that draws the id of a report just accepted is not stored: the state is
    unchanged and the reply is not a 201. *)
Theorem tracking_id_unique :
  (forall i c, In (issueId i) (map issueId c) ->
               (exists e, Store.insert i c = inl e)
               /\ (validate i = true -> geo_indexable (location i) = true ->
                   Store.insert i c = inl Store.DuplicateKey))
  /\ (forall t w, reachable t w -> NoDup (map issueId (issues w)))
  /\ (forall now1 now2 rnd err1 file1 b1 err2 file2 b2 w,
         code (snd (post_report now1 rnd err1 file1 b1 w)) = 201 ->
         fst (post_report now2 rnd err2 file2 b2
                (fst (post_report now1 rnd err1 file1 b1 w)))
         = fst (post_report now1 rnd err1 file1 b1 w)
         /\ code (snd (post_report now2 rnd err2 file2 b2
                         (fst (post_report now1 rnd err1 file1 b1 w)))) <> 201).
Proof.
  split; [|split].
  - intros i c H; split; [now apply insert_existing|].
    intros Hv Hg; apply has_id_existsb in H.
    unfold Store.insert; now rewrite Hv, Hg, H.
  - intros t w H.
    induction H as [t|t w now r H IH Hle]; [constructor|].
    eapply effect_NoDup; [apply handle_effect|exact IH].
  - intros now1 now2 rnd err1 file1 b1 err2 file2 b2 w H1.
    destruct (post_report_cases now1 rnd err1 file1 b1 w)
      as [[_ H]|[(_ & _ & H)|[(_ & _ & _ & H)|(_ & _ & c & Hi & H)]]];
      rewrite H in H1 |- *; simpl in H1; try discriminate H1.
    simpl fst.
    apply insert_inr in Hi as (_ & _ & _ & ->).
    set (w1 := mkWorld _ _).
    assert (Hdup : exists e, Store.insert (newIssue now2 rnd file2 b2) (issues w1) = inl e).
    { apply insert_existing; simpl. rewrite map_app, in_app_iff; right; now left. }
    destruct Hdup as [e He].
    destruct (post_report_cases now2 rnd err2 file2 b2 w1)
      as [[_ H']|[(_ & _ & H')|[(_ & _ & _ & H')|(_ & _ & c' & Hi' & _)]]];
      try (rewrite H'; simpl; split; [reflexivity|discriminate]).
    congruence.
Qed.

Lemma tracking_id_unique_witness :
  NoDup (map issueId (issues reopened))
  /\ fst (post_report 2000 (1 # 2) None None pothole_report one_pending) = one_pending
  /\ Store.insert (newIssue 2000 (1 # 2) None pothole_report) (issues one_pending)
     = inl Store.DuplicateKey.
Proof.
  destruct tracking_id_unique as (Hinsert & Hreach & Htwice).
  split; [|split].
  - apply (Hreach 7202000 reopened).
    apply (run_reachable reopened_log 0 empty_world); [constructor|reflexivity].
  - apply (Htwice 1000 2000 (1 # 2) None None pothole_report None None pothole_report
             empty_world).
    reflexivity.
  - apply (Hinsert (newIssue 2000 (1 # 2) None pothole_report) (issues one_pending));
      [left|..]; reflexivity.
Defined.

Lemma digits_S fuel n acc :
  JS.digits (S fuel) n acc
  = if n / 10 =? 0 then String (JS.digit (n mod 10)) acc
    else JS.digits fuel (n / 10) (String (JS.digit (n mod 10)) acc).
Proof. reflexivity. Qed.

Lemma is_digit_digit n : JS.is_digit (JS.digit (n mod 10)) = true.
Proof.
  assert (H : 0 <= n mod 10 < 10) by (apply Z.mod_pos_bound; lia).
  assert (Hd : n mod 10 = 0 \/ n mod 10 = 1 \/ n mod 10 = 2 \/ n mod 10 = 3
               \/ n mod 10 = 4 \/ n mod 10 = 5 \/ n mod 10 = 6 \/ n mod 10 = 7
               \/ n mod 10 = 8 \/ n mod 10 = 9) by lia.
  repeat (destruct Hd as [->|Hd]; [reflexivity|]).
  now rewrite Hd.
Qed.

(** An integer of the range 100000..999999 prints as six decimal digits. *)
Lemma toString_six_digits n :
  100000 <= n <= 999999 -> SpecText.six_digits (JS.toString n) = true.
Proof.
  intros Hn. unfold JS.toString.
  destruct (Z.ltb_spec n 0) as [?|_]; [lia|].
  assert (Hlog : 16 <= Z.log2 n)
    by (change 16 with (Z.log2 65536); apply Z.log2_le_mono; lia).
  remember (Z.to_nat (Z.log2 n)) as f eqn:Hf.
  do 5 (destruct f as [|f]; [lia|]).
  rewrite !digits_S.
  assert (E1 : (n / 10 =? 0) = false)
    by (apply Z.eqb_neq; Z.div_mod_to_equations; lia).
  assert (E2 : (n / 10 / 10 =? 0) = false)
    by (apply Z.eqb_neq; Z.div_mod_to_equations; lia).
  assert (E3 : (n / 10 / 10 / 10 =? 0) = false)
    by (apply Z.eqb_neq; Z.div_mod_to_equations; lia).
  assert (E4 : (n / 10 / 10 / 10 / 10 =? 0) = false)
    by (apply Z.eqb_neq; Z.div_mod_to_equations; lia).
  assert (E5 : (n / 10 / 10 / 10 / 10 / 10 =? 0) = false)
    by (apply Z.eqb_neq; Z.div_mod_to_equations; lia).
  assert (E6 : (n / 10 / 10 / 10 / 10 / 10 / 10 =? 0) = true)
    by (apply Z.eqb_eq; Z.div_mod_to_equations; lia).
  rewrite E1, E2, E3, E4, E5, E6.
  unfold SpecText.six_digits.
  cbn [String.length Nat.eqb all_chars andb].
  now rewrite !is_digit_digit.
Qed.

Lemma generateIssueId_range rnd :
  (0 <= rnd)%Q -> (rnd < 1)%Q ->
  100000 <= Qfloor (inject_Z 100000 + rnd * inject_Z 900000)%Q <= 999999.
Proof.
  intros H0 H1. split.
  - rewrite <- (Qfloor_Z 100000) at 1.
    apply Qfloor_resp_le.
    rewrite <- (Qplus_0_r (inject_Z 100000)) at 1.
    apply Qplus_le_r. apply Qmult_le_0_compat; [exact H0|discriminate].
  - assert (H : Qfloor (inject_Z 100000 + rnd * inject_Z 900000)%Q < 1000000); [|lia].
    rewrite Zlt_Qlt.
    eapply Qle_lt_trans; [apply Qfloor_le|].
    change (inject_Z 1000000) with (inject_Z 100000 + 1 * inject_Z 900000)%Q.
    apply Qplus_lt_r. apply Qmult_lt_compat_r; [reflexivity|exact H1].
Qed.

Lemma generateIssueId_six_digits rnd :
  (0 <= rnd)%Q -> (rnd < 1)%Q ->
  exists n, 100000 <= n <= 999999
            /\ generateIssueId rnd = JS.toString n
            /\ SpecText.six_digits (generateIssueId rnd) = true.
Proof.
  intros H0 H1.
  exists (Qfloor (inject_Z 100000 + rnd * inject_Z 900000)%Q).
  pose proof (generateIssueId_range rnd H0 H1) as Hr.
  repeat split; try apply Hr.
  now apply toString_six_digits.
Qed.

Lemma six_digits_required s : SpecText.six_digits s = true -> required s = true.
Proof. destruct s; [discriminate|reflexivity]. Qed.

Lemma truthy_required v : JS.falsy v = false -> required (JS.text v) = true.
Proof.
  intros H; apply truthy_text in H as [_ H].
  unfold required; apply String.eqb_neq in H; now rewrite H.
Qed.

Lemma route_required c : required (route c) = true.
Proof.
  unfold route; destruct_eqb; reflexivity.
Qed.

Lemma Qbetween_castNumber lo hi x : Qbetween lo hi x = true -> castNumber x = true.
Proof. destruct x; simpl; auto; discriminate. Qed.

(** The store accepts the document of a report whose fields are all there,
    whose category is one of the schema and whose coordinates are numbers
    within the bounds of the geospatial index. *)
Lemma newIssue_accepted now rnd file b :
  (0 <= rnd)%Q -> (rnd < 1)%Q ->
  missing_required b = false ->
  member (JS.text (rb_issueType b)) issueType_enum = true ->
  Qbetween (-180) 180 (JS.parseFloat (JS.text (rb_longitude b))) = true ->
  Qbetween (-90) 90 (JS.parseFloat (JS.text (rb_latitude b))) = true ->
  validate (newIssue now rnd file b) = true
  /\ geo_indexable (location (newIssue now rnd file b)) = true.
Proof.
  intros H0 H1 Hm Hcat Hlng Hlat.
  unfold missing_required in Hm.
  repeat (apply orb_false_iff in Hm as [Hm ?]).
  destruct (generateIssueId_six_digits rnd H0 H1) as (n & _ & _ & Hid).
  unfold validate, geo_indexable, newIssue.
  cbn [issueId issueType description location loc_type coordinates status
       citizenContact assignedDepartment forallb].
  rewrite (six_digits_required _ Hid), !truthy_required, Hcat, route_required,
    (Qbetween_castNumber _ _ _ Hlng), (Qbetween_castNumber _ _ _ Hlat), Hlng, Hlat
    by assumption.
  split; reflexivity.
Qed.




(* ------------------------------------------------------------------ *)
(** ** GET /api/analytics *)

Lemma tally_unchanged acc issue : tally acc issue = acc.
Proof.
  unfold tally.
  change (date_at "reportedAt" issue) with (@None Z).
  now destruct (date_at "resolvedAt" issue).
Qed.

Lemma fold_tally_unchanged l acc : fold_left tally l acc = acc.
Proof.
  revert acc; induction l as [|i l IH]; simpl; intros acc; [reflexivity|].
  now rewrite tally_unchanged.
Qed.

Lemma tally_createdAt_qualifying total count i :
  SpecText.qualifies i = true ->
  tally_createdAt (total, count) i
  = (total + SpecText.resolution_ms i, count + 1).
Proof.
  unfold SpecText.qualifies, tally_createdAt, SpecText.resolution_ms.
  intros H; apply andb_true_iff in H as [_ H].
  change (date_at "resolvedAt" i) with (resolvedAt i).
  change (date_at "createdAt" i) with (Some (createdAt i)).
  destruct (resolvedAt i); [reflexivity|discriminate].
Qed.

Lemma fold_tally_createdAt l :
  Forall (fun i => SpecText.qualifies i = true) l ->
  forall total count,
    fold_left tally_createdAt l (total, count)
    = (total + fold_right Z.add 0 (map SpecText.resolution_ms l),
       count + Z.of_nat (List.length l)).
Proof.
  induction 1 as [|i l Hi Hl IH]; intros total count.
  - simpl; f_equal; lia.
  - cbn [fold_left map fold_right List.length].
    rewrite (tally_createdAt_qualifying _ _ _ Hi), IH; f_equal; lia.
Qed.

(** With [createdAt] read in place of [reportedAt], the average of the
    handler, in hours, is the average of the specification. *)
Lemma average_with_createdAt_meets_spec c :
  (avgResolutionTimeMs_createdAt c / inject_Z (1000 * 60 * 60)
   == SpecText.average_resolution_hours c)%Q.
Proof.
  unfold avgResolutionTimeMs_createdAt, SpecText.average_resolution_hours.
  change (resolvedIssues c) with (filter SpecText.qualifies c).
  assert (Hq : Forall (fun i => SpecText.qualifies i = true)
                      (filter SpecText.qualifies c))
    by (apply Forall_forall; intros i Hi; now apply filter_In in Hi).
  rewrite (fold_tally_createdAt _ Hq 0 0).
  destruct (filter SpecText.qualifies c) as [|i l]; [reflexivity|].
  destruct (Z.ltb_spec 0 (0 + Z.of_nat (List.length (i :: l)))) as [_|H];
    [|simpl List.length in H; lia].
  rewrite !Z.add_0_l. reflexivity.
Qed.

(** C3: the handler against the specification's average.  The handler
    reads the creation time of an issue from [reportedAt], which is not a
    path of the schema, so no issue is ever counted and the average it
    returns is 0.0 for every collection.  On the reachable collection that
    holds one issue resolved two hours after its creation, the average of
    the specification is 2 hours and the handler answers 0.0. *)
Theorem average_resolution_time_always_zero :
  (forall c, avgResolutionTimeMs c = 0%Q /\ avgResolutionTimeHours c = "0.0")
  /\ reachable 7201000 one_resolved
  /\ (SpecText.average_resolution_hours (issues one_resolved) == 2)%Q
  /\ get_analytics one_resolved = mkReply 200 None (Analytics "0.0")
  /\ SpecText.average_resolution_hours [] = 0%Q.
Proof.
  assert (H : forall c, avgResolutionTimeMs c = 0%Q)
    by (intros c; unfold avgResolutionTimeMs; now rewrite fold_tally_unchanged).
  split; [|split; [exact one_resolved_reachable|split; [reflexivity|split]]].
  - intros c; split; [apply H|].
    unfold avgResolutionTimeHours; now rewrite H.
  - unfold get_analytics, avgResolutionTimeHours; now rewrite H.
  - reflexivity.
Qed.

(* ================================================================== *)
(** * Further properties of the handlers and of the two pages *)

(* ------------------------------------------------------------------ *)
(** ** The outcomes of the status and assignment handlers *)

Lemma has_id_eq id i : Store.has_id id i = true -> issueId i = id.
Proof. unfold Store.has_id; apply String.eqb_eq. Qed.

Lemma findOne_has_id id c i : Store.findOne id c = Some i -> In i c /\ issueId i = id.
Proof.
  intros H; apply find_some in H as [Hi Hid]; split; [exact Hi|now apply has_id_eq].
Qed.

Lemma world_eta w : mkWorld (issues w) (outbox w) = w.
Proof. now destruct w. Qed.

(** The five ways out of the assignment handler. *)
Lemma post_assign_issue_cases now id u w :
  ((JS.falsy id = true \/ JS.falsy u = true)
   /\ post_assign_issue now id u w
      = (w, mkReply 400 (Some "Issue ID and User ID are required for assignment.")
              NoData))
  \/ (JS.falsy id = false /\ JS.falsy u = false
      /\ Store.findOne (JS.text id) (issues w) = None
      /\ post_assign_issue now id u w
         = (w, mkReply 404 (Some "Issue not found with that ID.") NoData))
  \/ (JS.falsy id = false /\ JS.falsy u = false
      /\ (exists i, Store.findOne (JS.text id) (issues w) = Some i
                    /\ (castObjectId (JS.text u) = None \/ validate i = false))
      /\ post_assign_issue now id u w
         = (w, mkReply 500 (Some "Failed to assign issue.") NoData))
  \/ (JS.falsy id = false /\ JS.falsy u = false
      /\ exists i oid,
           Store.findOne (JS.text id) (issues w) = Some i
           /\ castObjectId (JS.text u) = Some oid /\ validate i = true
           /\ assignedTo i = Some oid
           /\ post_assign_issue now id u w
              = (w, mkReply 200 (Some "Issue assigned successfully!") (Document i)))
  \/ (JS.falsy id = false /\ JS.falsy u = false
      /\ exists i oid c,
           Store.findOne (JS.text id) (issues w) = Some i
           /\ castObjectId (JS.text u) = Some oid /\ validate i = true
           /\ assignedTo i <> Some oid
           /\ Store.update_first (JS.text id) (Store.with_assignedTo now oid) (issues w)
              = Some (c, Store.with_assignedTo now oid i)
           /\ post_assign_issue now id u w
              = (mkWorld c (outbox w),
                 mkReply 200 (Some "Issue assigned successfully!")
                   (Document (Store.with_assignedTo now oid i)))).
Proof.
  unfold post_assign_issue.
  destruct (JS.falsy id) eqn:Hid; simpl; [left; auto|].
  destruct (JS.falsy u) eqn:Hu; simpl; [left; auto|].
  destruct (Store.findOne (JS.text id) (issues w)) as [i|] eqn:Hf;
    [|right; left; auto].
  right; right.
  unfold Store.save_assignedTo.
  destruct (castObjectId (JS.text u)) as [oid|] eqn:Hc;
    [|left; repeat split; eauto].
  destruct (validate i) eqn:Hv; simpl; [|left; repeat split; eauto].
  right.
  destruct (assignedTo i) as [old|] eqn:Ha.
  - destruct (String.eqb_spec old oid) as [->|Hne].
    + left; repeat split; exists i, oid; rewrite world_eta; auto.
    + right; repeat split.
      destruct (update_first_some _ (Store.with_assignedTo now oid) _ _ Hf) as [c Hc'].
      rewrite (proj2 (findOne_has_id _ _ _ Hf)), Hc'.
      exists i, oid, c; repeat split; auto; try congruence.
  - right; repeat split.
    destruct (update_first_some _ (Store.with_assignedTo now oid) _ _ Hf) as [c Hc'].
    rewrite (proj2 (findOne_has_id _ _ _ Hf)), Hc'.
    exists i, oid, c; repeat split; auto; try congruence.
Qed.

Lemma apply_set_same_report now u i : same_report i (Store.apply_set now u i).
Proof. unfold same_report; simpl; tauto. Qed.

Lemma with_assignedTo_same_report now oid i :
  same_report i (Store.with_assignedTo now oid i).
Proof. unfold same_report; simpl; tauto. Qed.

Lemma update_status_effect now id s w :
  JS.falsy id = false -> JS.falsy s = false ->
  (Store.findOne (JS.text id) (issues w) = None ->
   post_update_status now id s w
   = (w, mkReply 404 (Some "Issue not found with that ID.") NoData))
  /\ (forall i, Store.findOne (JS.text id) (issues w) = Some i ->
      exists u,
        snd (post_update_status now id s w)
        = mkReply 200 (Some "Status updated successfully!") (Document u)
        /\ Store.findOne (JS.text id) (issues (fst (post_update_status now id s w)))
           = Some u
        /\ status u = JS.text s /\ updatedAt u = now
        /\ resolvedAt u = (if (JS.text s =? "Resolved")%string
                           then Some now else resolvedAt i)
        /\ same_report i u /\ assignedTo u = assignedTo i).
Proof.
  intros Hid Hs.
  destruct (post_update_status_cases now id s w)
    as [[[H|H] _]|[(_ & _ & Hf & H)|(_ & _ & i & c & Hf & Hu & H)]];
    try congruence; rewrite H; simpl; split; try congruence.
  intros j Hj. assert (j = i) by congruence; subst j.
  eexists; split; [reflexivity|].
  destruct (update_first_lookup _ _ _ _ _ Hu (fun _ => eq_refl)) as (k & _ & _ & Hl).
  split; [exact Hl|].
  repeat split.
  simpl. now destruct (JS.text s =? "Resolved")%string.
Qed.

(** X1. A status update with a non-empty id and a non-empty status is
    answered 404, and changes nothing, when no issue has the id.  When an
    issue has it, the answer is 200 whatever the text of the status, listed
    in the schema or not: the issue then carries that text as its status,
    the instant of the update as [updatedAt], that instant as [resolvedAt]
    when the text is "Resolved" and its former [resolvedAt] otherwise, and
    the rest of the record is as it was. *)
Theorem update_status_outcomes now id s w :
  JS.falsy id = false -> JS.falsy s = false ->
  (Store.findOne (JS.text id) (issues w) = None ->
   post_update_status now id s w
   = (w, mkReply 404 (Some "Issue not found with that ID.") NoData))
  /\ (forall i, Store.findOne (JS.text id) (issues w) = Some i ->
      exists u,
        snd (post_update_status now id s w)
        = mkReply 200 (Some "Status updated successfully!") (Document u)
        /\ Store.findOne (JS.text id) (issues (fst (post_update_status now id s w)))
           = Some u
        /\ status u = JS.text s /\ updatedAt u = now
        /\ resolvedAt u = (if (JS.text s =? "Resolved")%string
                           then Some now else resolvedAt i)
        /\ same_report i u /\ assignedTo u = assignedTo i).
Proof. exact (update_status_effect now id s w). Qed.

Lemma update_status_outcomes_witness :
  post_update_status 2000 (Some "123456") (Some "Resolved") one_pending
  = (one_pending, mkReply 404 (Some "Issue not found with that ID.") NoData)
  /\ exists u,
       Store.findOne "550000"
         (issues (fst (post_update_status 2000 (Some "550000") (Some unknown_status)
                         one_pending))) = Some u
       /\ status u = unknown_status /\ resolvedAt u = None.
Proof.
  split.
  - apply (update_status_outcomes 2000 (Some "123456") (Some "Resolved") one_pending);
      reflexivity.
  - destruct (proj2 (update_status_outcomes 2000 (Some "550000") (Some unknown_status)
                       one_pending eq_refl eq_refl) _ eq_refl)
      as (u & _ & Hf & Hs & _ & Hr & _).
    exists u; repeat split; [exact Hf|exact Hs|exact Hr].
Defined.

(** X2. The status handler and the assignment handler answer 400 exactly
    when the request has a body and one of the two fields they read from it
    is falsy: not there, [null], [false], the number 0 or NaN, or the empty
    text.  A 400 leaves the state as it was.  When the request has no body
    the destructuring throws inside the [try], and the answer is the 500 of
    the [catch], with the state as it was. *)
Theorem missing_argument_rejected now sb ab w :
  (Wire.may_reply (Wire.post_update_status now sb w) 400
   <-> exists b, sb = Some b
                 /\ (Json.Falsy (Wire.s_issueId b) \/ Json.Falsy (Wire.s_status b)))
  /\ (Wire.may_reply (Wire.post_assign_issue now ab w) 400
      <-> exists b, ab = Some b
                    /\ (Json.Falsy (Wire.a_issueId b) \/ Json.Falsy (Wire.a_userId b)))
  /\ (forall w' r, Wire.post_update_status now sb w = Wire.Replied w' r ->
                   code r = 400 -> w' = w)
  /\ (forall w' r, Wire.post_assign_issue now ab w = Wire.Replied w' r ->
                   code r = 400 -> w' = w)
  /\ (sb = None ->
      Wire.post_update_status now sb w
      = Wire.Replied w (mkReply 500 (Some "Failed to update issue status.") NoData))
  /\ (ab = None ->
      Wire.post_assign_issue now ab w
      = Wire.Replied w (mkReply 500 (Some "Failed to assign issue.") NoData)).
Proof.
  assert (Hor : forall x y, Json.falsy x || Json.falsy y = true
                            <-> Json.Falsy x \/ Json.Falsy y)
    by (intros x y; now rewrite orb_true_iff, !Falsy_spec).
  assert (Hs : forall id s,
             JS.falsy id || JS.falsy s = false ->
             code (snd (post_update_status now id s w)) <> 400).
  { intros id s H.
    destruct (post_update_status_cases now id s w)
      as [[Hf _]|[(_ & _ & _ & E)|(_ & _ & i & c & _ & _ & E)]];
      [apply orb_false_iff in H as [? ?]; destruct Hf; congruence| |];
      rewrite E; discriminate. }
  assert (Ha : forall id u,
             JS.falsy id || JS.falsy u = false ->
             code (snd (post_assign_issue now id u w)) <> 400).
  { intros id u H.
    destruct (post_assign_issue_cases now id u w)
      as [[Hf _]|[(_ & _ & _ & E)|[(_ & _ & _ & E)
         |[(_ & _ & i & o & _ & _ & _ & _ & E)
          |(_ & _ & i & o & c & _ & _ & _ & _ & _ & E)]]]];
      [apply orb_false_iff in H as [? ?]; destruct Hf; congruence|..];
      rewrite E; discriminate. }
  unfold Wire.post_update_status, Wire.post_assign_issue.
  repeat split; try (intros ->; reflexivity).
  - destruct sb as [b|]; cbn [Wire.may_reply code]; [|discriminate].
    destruct (Json.falsy (Wire.s_issueId b) || Json.falsy (Wire.s_status b)) eqn:Hf;
      cbn [Wire.may_reply code].
    + intros _; exists b; split; [reflexivity|now apply Hor].
    + destruct (Json.as_field (Wire.s_issueId b)) as [id|] eqn:E1;
        [destruct (Json.as_field (Wire.s_status b)) as [s|] eqn:E2|];
        cbn [Wire.may_reply In]; try (intros [H|[H|[H|[]]]]; discriminate H).
      intros H; exfalso; revert H. apply Hs.
      now rewrite (as_field_falsy _ _ E1), (as_field_falsy _ _ E2).
  - intros (b & -> & H). apply Hor in H. now rewrite H.
  - destruct ab as [b|]; cbn [Wire.may_reply code]; [|discriminate].
    destruct (Json.falsy (Wire.a_issueId b) || Json.falsy (Wire.a_userId b)) eqn:Hf;
      cbn [Wire.may_reply code].
    + intros _; exists b; split; [reflexivity|now apply Hor].
    + destruct (Json.as_field (Wire.a_issueId b)) as [id|] eqn:E1;
        [destruct (Json.as_field (Wire.a_userId b)) as [u|] eqn:E2|];
        cbn [Wire.may_reply In]; try (intros [H|[H|[H|[]]]]; discriminate H).
      intros H; exfalso; revert H. apply Ha.
      now rewrite (as_field_falsy _ _ E1), (as_field_falsy _ _ E2).
  - intros (b & -> & H). apply Hor in H. now rewrite H.
  - intros w' r H Hc.
    destruct sb as [b|]; [|injection H as <- <-; discriminate Hc].
    destruct (Json.falsy (Wire.s_issueId b) || Json.falsy (Wire.s_status b)) eqn:Hf;
      [now injection H as <- <-|].
    destruct (Json.as_field (Wire.s_issueId b)) as [id|] eqn:E1;
      [destruct (Json.as_field (Wire.s_status b)) as [s|] eqn:E2|];
      try discriminate H.
    injection H as <- <-. exfalso; revert Hc. apply Hs.
    now rewrite (as_field_falsy _ _ E1), (as_field_falsy _ _ E2).
  - intros w' r H Hc.
    destruct ab as [b|]; [|injection H as <- <-; discriminate Hc].
    destruct (Json.falsy (Wire.a_issueId b) || Json.falsy (Wire.a_userId b)) eqn:Hf;
      [now injection H as <- <-|].
    destruct (Json.as_field (Wire.a_issueId b)) as [id|] eqn:E1;
      [destruct (Json.as_field (Wire.a_userId b)) as [u|] eqn:E2|];
      try discriminate H.
    injection H as <- <-. exfalso; revert Hc. apply Ha.
    now rewrite (as_field_falsy _ _ E1), (as_field_falsy _ _ E2).
Qed.

Lemma missing_argument_rejected_witness :
  Wire.may_reply
    (Wire.post_update_status 2000
       (Some (Wire.mkStatusFields (Json.Str "550000") (Json.Num (JS.Finite 0))))
       one_pending) 400
  /\ Wire.may_reply
       (Wire.post_assign_issue 2000
          (Some (Wire.mkAssignFields (Json.Bool false) (Json.Str staff_id)))
          one_pending) 400
  /\ ~ Wire.may_reply
         (Wire.post_update_status 2000
            (Some (Wire.mkStatusFields (Json.Str "550000") (Json.Str "Resolved")))
            one_pending) 400
  /\ Wire.post_update_status 2000 None one_pending
     = Wire.Replied one_pending
         (mkReply 500 (Some "Failed to update issue status.") NoData).
Proof.
  split; [|split; [|split]].
  - apply (missing_argument_rejected 2000
             (Some (Wire.mkStatusFields (Json.Str "550000") (Json.Num (JS.Finite 0))))
             None one_pending).
    eexists; split; [reflexivity|]. right; constructor; reflexivity.
  - apply (missing_argument_rejected 2000 None
             (Some (Wire.mkAssignFields (Json.Bool false) (Json.Str staff_id)))
             one_pending).
    eexists; split; [reflexivity|]. left; constructor.
  - intros H.
    apply (missing_argument_rejected 2000
             (Some (Wire.mkStatusFields (Json.Str "550000") (Json.Str "Resolved")))
             None one_pending) in H.
    destruct H as (b & [= <-] & [H|H]); apply Falsy_spec in H; discriminate H.
  - apply (missing_argument_rejected 2000 None None one_pending). reflexivity.
Defined.

Lemma validate_with_assignedTo now oid i :
  validate (Store.with_assignedTo now oid i) = validate i.
Proof. reflexivity. Qed.

Lemma validate_status i : validate i = true -> member (status i) status_enum = true.
Proof.
  unfold validate; intros H.
  repeat (apply andb_true_iff in H as [H ?]); assumption.
Qed.


(** X3. Assigning staff to an issue that exists and that the schema accepts,
    with an id of 24 hexadecimal digits, is answered 200 and sends no
    notification.  The stored issue then carries the staff id in lower case
    and is otherwise the report, the status and the resolution time that the
    issue had.  The reply of the assignment and the reply of a tracking
    afterwards are that stored issue, with, in the place of the staff id,
    what [populate] finds for it: [null] when no user has the id, and
    otherwise the id and the name of the user, with the department in the
    reply of the assignment and without it in the reply of the tracking. *)
Theorem assign_then_track users now id u w i oid :
  JS.falsy id = false -> JS.falsy u = false ->
  Store.findOne (JS.text id) (issues w) = Some i ->
  castObjectId (JS.text u) = Some oid -> validate i = true ->
  exists w' j,
    Populate.post_assign_issue users now id u w
    = (w', mkReply 200 (Some "Issue assigned successfully!") (Document j),
       Populate.populate users true (Some oid))
    /\ outbox w' = outbox w
    /\ Store.findOne (JS.text id) (issues w') = Some j
    /\ Populate.get_track_status users (JS.text id) w'
       = (mkReply 200 None (Document j), Populate.populate users false (Some oid))
    /\ assignedTo j = Some oid /\ same_report i j
    /\ status j = status i /\ resolvedAt j = resolvedAt i
    /\ (((forall m, In m users -> Populate.user_id m <> oid)
         /\ Populate.populate users true (Some oid) = Populate.Dangling
         /\ Populate.populate users false (Some oid) = Populate.Dangling)
        \/ (exists m, In m users /\ Populate.user_id m = oid
                      /\ Populate.populate users true (Some oid)
                         = Populate.Staff oid (Populate.user_name m)
                                          (Some (Populate.user_department m))
                      /\ Populate.populate users false (Some oid)
                         = Populate.Staff oid (Populate.user_name m) None)).
Proof.
  intros Hid Hu Hf Hc Hv.
  assert (Hpop :
            ((forall m, In m users -> Populate.user_id m <> oid)
             /\ Populate.populate users true (Some oid) = Populate.Dangling
             /\ Populate.populate users false (Some oid) = Populate.Dangling)
            \/ (exists m, In m users /\ Populate.user_id m = oid
                          /\ Populate.populate users true (Some oid)
                             = Populate.Staff oid (Populate.user_name m)
                                              (Some (Populate.user_department m))
                          /\ Populate.populate users false (Some oid)
                             = Populate.Staff oid (Populate.user_name m) None)).
  { unfold Populate.populate.
    destruct (find (fun m => (Populate.user_id m =? oid)%string) users) as [m|] eqn:E.
    - right. apply find_some in E as [Hin Hm]. apply String.eqb_eq in Hm.
      exists m; rewrite Hm; auto.
    - left; split; [|split; reflexivity].
      intros m Hin Hm.
      apply (find_none _ _ E) in Hin. apply String.eqb_neq in Hin. contradiction. }
  unfold Populate.post_assign_issue, Populate.get_track_status, Populate.shown.
  destruct (post_assign_issue_cases now id u w)
    as [[[H|H] _]|[(_ & _ & Hf' & _)|[(_ & _ & (i' & Hf' & [Hc'|Hv']) & _)
       |[(_ & _ & i' & o' & Hf' & Hc' & _ & Ha & H)
        |(_ & _ & i' & o' & c & Hf' & Hc' & _ & _ & Hup & H)]]]];
    try congruence.
  - assert (i' = i) by congruence; subst i'.
    assert (o' = oid) by congruence; subst o'.
    rewrite H; cbn [payload].
    exists w, i. rewrite Ha. unfold get_track_status; rewrite Hf; cbn [payload].
    rewrite Ha. repeat split; auto.
  - assert (i' = i) by congruence; subst i'.
    assert (o' = oid) by congruence; subst o'.
    rewrite H; cbn [payload].
    destruct (update_first_lookup _ _ _ _ _ Hup (fun _ => eq_refl)) as (k & _ & _ & Hl).
    exists (mkWorld c (outbox w)), (Store.with_assignedTo now oid i).
    unfold get_track_status; cbn [issues outbox]; rewrite Hl; cbn [payload].
    repeat split; auto.
Qed.

Lemma assign_then_track_witness :
  exists w' j,
    Populate.post_assign_issue staff_room 3000 (Some "550000") (Some staff_id)
      one_resolved
    = (w', mkReply 200 (Some "Issue assigned successfully!") (Document j),
       Populate.Staff staff_id "Asha Rao" (Some "Public Works"))
    /\ Populate.get_track_status staff_room "550000" w'
       = (mkReply 200 None (Document j), Populate.Staff staff_id "Asha Rao" None)
    /\ Populate.get_track_status [] "550000" w'
       = (mkReply 200 None (Document j), Populate.Dangling)
    /\ assignedTo j = Some staff_id /\ status j = "Resolved".
Proof.
  destruct (assign_then_track staff_room 3000 (Some "550000") (Some staff_id)
              one_resolved _ staff_id eq_refl eq_refl eq_refl eq_refl eq_refl)
    as (w' & j & Hr & _ & _ & Ht & Ha & _ & Hs & _).
  destruct (assign_then_track [] 3000 (Some "550000") (Some staff_id)
              one_resolved _ staff_id eq_refl eq_refl eq_refl eq_refl eq_refl)
    as (w2 & j2 & Hr2 & _ & _ & Ht2 & _).
  assert (E : w2 = w' /\ j2 = j).
  { unfold Populate.post_assign_issue in Hr, Hr2.
    destruct (post_assign_issue 3000 (Some "550000") (Some staff_id) one_resolved)
      as [w0 r0].
    injection Hr as <- ->. injection Hr2 as <- <-. auto. }
  destruct E as [-> ->].
  exists w', j. repeat split; [exact Hr|exact Ht|exact Ht2|exact Ha|exact Hs].
Defined.

Lemma assign_refused now id u w :
  JS.falsy id = false -> JS.falsy u = false ->
  (Store.findOne (JS.text id) (issues w) = None ->
   post_assign_issue now id u w
   = (w, mkReply 404 (Some "Issue not found with that ID.") NoData))
  /\ (forall i, Store.findOne (JS.text id) (issues w) = Some i ->
      castObjectId (JS.text u) = None \/ validate i = false ->
      post_assign_issue now id u w
      = (w, mkReply 500 (Some "Failed to assign issue.") NoData))
  /\ outbox (fst (post_assign_issue now id u w)) = outbox w.
Proof.
  intros Hid Hu.
  destruct (post_assign_issue_cases now id u w)
    as [[[H|H] _]|[(_ & _ & Hf' & H)|[(_ & _ & (i' & Hf' & Hbad) & H)
       |[(_ & _ & i' & o' & Hf' & Hc' & Hv' & Ha & H)
        |(_ & _ & i' & o' & c & Hf' & Hc' & Hv' & _ & Hup & H)]]]];
    try congruence; rewrite H; simpl; repeat split; try congruence;
    intros i Hf [Hc|Hv]; assert (i' = i) by congruence; subst i'; congruence.
Qed.

(** X4. The failures of an assignment with both arguments given: 404 when
    no issue has the id, 500 when the staff id is not 24 hexadecimal digits
    or when the stored issue no longer passes the validation of the schema.
    Each failure leaves the state as it was, and no assignment, failed or
    not, sends a notification. *)
Theorem assign_failures now id u w :
  JS.falsy id = false -> JS.falsy u = false ->
  (Store.findOne (JS.text id) (issues w) = None ->
   post_assign_issue now id u w
   = (w, mkReply 404 (Some "Issue not found with that ID.") NoData))
  /\ (forall i, Store.findOne (JS.text id) (issues w) = Some i ->
      castObjectId (JS.text u) = None \/ validate i = false ->
      post_assign_issue now id u w
      = (w, mkReply 500 (Some "Failed to assign issue.") NoData))
  /\ outbox (fst (post_assign_issue now id u w)) = outbox w.
Proof. exact (assign_refused now id u w). Qed.

Lemma assign_failures_witness :
  post_assign_issue 3000 (Some "123456") (Some staff_id) one_pending
  = (one_pending, mkReply 404 (Some "Issue not found with that ID.") NoData)
  /\ post_assign_issue 3000 (Some "550000") (Some "nobody") one_pending
     = (one_pending, mkReply 500 (Some "Failed to assign issue.") NoData).
Proof.
  split.
  - apply (assign_failures 3000 (Some "123456") (Some staff_id) one_pending);
      reflexivity.
  - apply (proj1 (proj2 (assign_failures 3000 (Some "550000") (Some "nobody")
                           one_pending eq_refl eq_refl)) _ eq_refl).
    left; reflexivity.
Defined.

(** X5. Assigning the same staff member again changes nothing, not even
    [updatedAt]: after a successful assignment, the same request leaves the
    state as it is and gets the same reply. *)
Theorem assign_idempotent now1 now2 id u w :
  code (snd (post_assign_issue now1 id u w)) = 200 ->
  post_assign_issue now2 id u (fst (post_assign_issue now1 id u w))
  = (fst (post_assign_issue now1 id u w), snd (post_assign_issue now1 id u w)).
Proof.
  intros H200.
  assert (Hj : exists j oid,
             JS.falsy id = false /\ JS.falsy u = false
             /\ castObjectId (JS.text u) = Some oid
             /\ Store.findOne (JS.text id) (issues (fst (post_assign_issue now1 id u w)))
                = Some j
             /\ validate j = true /\ assignedTo j = Some oid
             /\ snd (post_assign_issue now1 id u w)
                = mkReply 200 (Some "Issue assigned successfully!") (Document j)).
  { destruct (post_assign_issue_cases now1 id u w)
      as [[_ H]|[(_ & _ & _ & H)|[(_ & _ & _ & H)
         |[(Hid & Hu & i & o & Hf & Hc & Hv & Ha & H)
          |(Hid & Hu & i & o & c & Hf & Hc & Hv & _ & Hup & H)]]]];
      rewrite H in H200 |- *; simpl in H200; try discriminate H200.
    - exists i, o; simpl; auto 10.
    - destruct (update_first_lookup _ _ _ _ _ Hup (fun _ => eq_refl))
        as (k & _ & _ & Hl).
      exists (Store.with_assignedTo now1 o i), o; simpl; auto 10. }
  destruct Hj as (j & oid & Hid & Hu & Hc & Hf & Hv & Ha & Hr).
  rewrite Hr.
  set (w1 := fst (post_assign_issue now1 id u w)) in *.
  unfold post_assign_issue, Store.save_assignedTo.
  rewrite Hid, Hu, Hf, Hc, Hv, Ha, String.eqb_refl; simpl.
  now rewrite world_eta.
Qed.

Lemma assign_idempotent_witness :
  fst (post_assign_issue 9000 (Some "550000") (Some staff_id)
         (fst (post_assign_issue 3000 (Some "550000") (Some staff_id) one_pending)))
  = fst (post_assign_issue 3000 (Some "550000") (Some staff_id) one_pending).
Proof.
  exact (f_equal fst
           (assign_idempotent 3000 9000 (Some "550000") (Some staff_id) one_pending
              eq_refl)).
Defined.

(** X6. A status that the schema does not list, once stored by a status
    update, blocks the assignment of the issue: the update is answered 200,
    and every assignment of that issue afterwards is answered 500 and
    changes nothing. *)
Theorem unlisted_status_blocks_assignment now1 now2 id s u w :
  JS.falsy id = false -> JS.falsy s = false -> JS.falsy u = false ->
  member (JS.text s) status_enum = false ->
  Store.findOne (JS.text id) (issues w) <> None ->
  code (snd (post_update_status now1 id s w)) = 200
  /\ post_assign_issue now2 id u (fst (post_update_status now1 id s w))
     = (fst (post_update_status now1 id s w),
        mkReply 500 (Some "Failed to assign issue.") NoData).
Proof.
  intros Hid Hs Hu Hm Hf.
  destruct (Store.findOne (JS.text id) (issues w)) as [i|] eqn:Hi; [|congruence].
  destruct (proj2 (update_status_effect now1 id s w Hid Hs) i Hi)
    as (v & Hr & Hl & Hst & _).
  split; [now rewrite Hr|].
  apply (proj1 (proj2 (assign_refused now2 id u _ Hid Hu)) v Hl).
  right.
  destruct (validate v) eqn:Hv; [|reflexivity].
  apply validate_status in Hv. congruence.
Qed.

Lemma unlisted_status_blocks_assignment_witness :
  post_assign_issue 3000 (Some "550000") (Some staff_id)
    (fst (post_update_status 2000 (Some "550000") (Some unknown_status) one_pending))
  = (fst (post_update_status 2000 (Some "550000") (Some unknown_status) one_pending),
     mkReply 500 (Some "Failed to assign issue.") NoData).
Proof.
  apply (unlisted_status_blocks_assignment 2000 3000 (Some "550000")
           (Some unknown_status) (Some staff_id) one_pending);
    try reflexivity.
  discriminate.
Defined.

(* ------------------------------------------------------------------ *)
(** ** Notifications *)

Lemma outbox_grows now r w :
  exists l, outbox (fst (handle now r w)) = (outbox w ++ l)%list.
Proof.
  assert (Hsame : forall w', outbox w' = outbox w ->
                             exists l, outbox w' = (outbox w ++ l)%list)
    by (intros w' ->; exists []; now rewrite app_nil_r).
  destruct r as [rnd err file b|id s|id u|id|]; simpl; auto.
  - destruct (post_report_cases now rnd err file b w)
      as [[_ H]|[(_ & _ & H)|[(_ & _ & _ & H)|(_ & _ & c & _ & H)]]];
      rewrite H; simpl; eauto.
  - destruct (post_update_status_cases now id s w)
      as [[_ H]|[(_ & _ & _ & H)|(_ & _ & i & c & Hf & _ & H)]];
      rewrite H; simpl; eauto.
  - destruct (post_assign_issue_effect now id u w)
      as [H|(issue & oid & v & _ & _ & H)]; [rewrite H|]; auto.
Qed.

(** X7. What a request sends.  An accepted report sends exactly one
    notification, the confirmation, to the contact of the form; a
    successful status update sends exactly one, to the contact stored in
    the issue; every other request, and every refused one, sends none.
    Notifications already sent are never removed or rewritten. *)
Theorem notifications_sent now r w :
  match r with
  | Report rnd err file b =>
      (code (snd (handle now r w)) = 201 ->
       outbox (fst (handle now r w))
       = (outbox w ++ [(JS.text (rb_citizenContact b),
                        confirmationMessage (newIssue now rnd file b))])%list)
      /\ (code (snd (handle now r w)) <> 201 ->
          outbox (fst (handle now r w)) = outbox w)
  | UpdateStatus id s =>
      (code (snd (handle now r w)) = 200 ->
       exists i, Store.findOne (JS.text id) (issues w) = Some i
                 /\ outbox (fst (handle now r w))
                    = (outbox w ++ [(citizenContact i,
                                     updateMessage (JS.text id) (JS.text s))])%list)
      /\ (code (snd (handle now r w)) <> 200 ->
          outbox (fst (handle now r w)) = outbox w)
  | _ => outbox (fst (handle now r w)) = outbox w
  end.
Proof.
  destruct r as [rnd err file b|id s|id u|id|]; simpl; try reflexivity.
  - destruct (post_report_cases now rnd err file b w)
      as [[_ H]|[(_ & _ & H)|[(_ & _ & _ & H)|(_ & _ & c & _ & H)]]];
      rewrite H; simpl; split; intros Hc; try reflexivity;
      try discriminate Hc; now contradiction Hc.
  - destruct (post_update_status_cases now id s w)
      as [[_ H]|[(_ & _ & _ & H)|(_ & _ & i & c & Hf & _ & H)]];
      rewrite H; simpl; split; intros Hc; try reflexivity;
      try discriminate Hc; try (now contradiction Hc).
    exists i; auto.
  - destruct (post_assign_issue_effect now id u w)
      as [H|(issue & oid & v & _ & _ & H)]; [now rewrite H|exact H].
Qed.

Lemma notifications_sent_witness :
  outbox (fst (handle 2000 (UpdateStatus (Some "550000") (Some "Resolved")) one_pending))
  <> outbox one_pending
  /\ outbox (fst (handle 2000 (UpdateStatus (Some "123456") (Some "Resolved"))
                    one_pending))
     = outbox one_pending
  /\ List.length (outbox (fst (handle 1000 (Report (1 # 2) None None pothole_report)
                                 empty_world))) = 1%nat.
Proof.
  split; [|split].
  - destruct (proj1 (notifications_sent 2000
                       (UpdateStatus (Some "550000") (Some "Resolved")) one_pending)
                eq_refl) as (i & _ & H).
    rewrite H. intros Hx.
    apply (f_equal (@List.length _)) in Hx.
    rewrite length_app in Hx; simpl in Hx; lia.
  - apply (notifications_sent 2000 (UpdateStatus (Some "123456") (Some "Resolved"))
             one_pending).
    discriminate.
  - rewrite (proj1 (notifications_sent 1000 (Report (1 # 2) None None pothole_report)
                      empty_world) eq_refl).
    reflexivity.
Defined.

(* ------------------------------------------------------------------ *)
(** ** What is stored stays stored *)

Lemma same_report_refl i : same_report i i.
Proof. unfold same_report; tauto. Qed.

Lemma same_report_trans a b c : same_report a b -> same_report b c -> same_report a c.
Proof. unfold same_report; intuition congruence. Qed.

Lemma find_app_some id (c l : list Issue) i :
  Store.findOne id c = Some i -> Store.findOne id (c ++ l) = Some i.
Proof.
  unfold Store.findOne; induction c as [|a r IH]; simpl; [discriminate|].
  destruct (Store.has_id id a); auto.
Qed.

Lemma find_update_first id id' f c c' u i :
  Store.update_first id' f c = Some (c', u) ->
  (forall x, issueId (f x) = issueId x) ->
  Store.findOne id c = Some i ->
  Store.findOne id c' = Some i \/ Store.findOne id c' = Some (f i).
Proof.
  intros Hu Hf; revert c' u Hu.
  unfold Store.findOne.
  induction c as [|a r IH]; simpl; intros c' u Hu Hi; [discriminate|].
  destruct (Store.has_id id' a) eqn:Ha'.
  - injection Hu as <- <-; simpl.
    unfold Store.has_id in *. rewrite Hf.
    destruct (issueId a =? id)%string; [injection Hi as <-|]; auto.
  - destruct (Store.update_first id' f r) as [[r' u']|] eqn:Hr; [|discriminate].
    injection Hu as <- <-; simpl.
    destruct (Store.has_id id a); [now left|].
    eapply IH; eauto.
Qed.

Lemma handle_keeps_report now r w id i :
  Store.findOne id (issues w) = Some i ->
  exists j, Store.findOne id (issues (fst (handle now r w))) = Some j
            /\ same_report i j.
Proof.
  intros Hi.
  destruct (handle_effect now r w) as [->|rnd file b Hins|id' s u Hu|id' oid u Hu].
  - exists i; split; [exact Hi|apply same_report_refl].
  - apply insert_inr in Hins as (_ & _ & _ & ->).
    exists i; split; [now apply find_app_some|apply same_report_refl].
  - destruct (find_update_first id _ _ _ _ _ i Hu (fun _ => eq_refl) Hi) as [H|H];
      eexists; split; try exact H;
      [apply same_report_refl|apply apply_set_same_report].
  - destruct (find_update_first id _ _ _ _ _ i Hu (fun _ => eq_refl) Hi) as [H|H];
      eexists; split; try exact H;
      [apply same_report_refl|apply with_assignedTo_same_report].
Qed.

(** X8. Nothing is ever deleted or re-identified.  Whatever requests
    follow, a tracking id that finds an issue keeps finding an issue with
    the same id, category, description, location, photo, contact,
    department and creation time; and the notifications sent so far remain
    the first ones of the log of notifications. *)
Theorem report_persists log w :
  (forall id i, Store.findOne id (issues w) = Some i ->
                exists j, Store.findOne id (issues (run log w)) = Some j
                          /\ same_report i j)
  /\ exists later, outbox (run log w) = (outbox w ++ later)%list.
Proof.
  revert w; induction log as [|[now r] rest IH]; simpl; intros w.
  - split; [intros id i Hi; exists i; split; [exact Hi|apply same_report_refl]|].
    exists []; now rewrite app_nil_r.
  - destruct (IH (fst (handle now r w))) as [IH1 [later IH2]].
    split.
    + intros id i Hi.
      destruct (handle_keeps_report now r w id i Hi) as (j & Hj & Hij).
      destruct (IH1 id j Hj) as (k & Hk & Hjk).
      exists k; split; [exact Hk|eapply same_report_trans; eauto].
    + destruct (outbox_grows now r w) as [l Hl].
      exists (l ++ later)%list. now rewrite IH2, Hl, app_assoc.
Qed.

Lemma report_persists_witness :
  exists j, Store.findOne "550000"
              (issues (run [(7201000, UpdateStatus (Some "550000") (Some "Resolved"));
                            (7202000, AssignIssue (Some "550000") (Some staff_id))]
                           one_pending)) = Some j
            /\ description j = "Deep hole near the bus stop" /\ createdAt j = 1000.
Proof.
  destruct (proj1 (report_persists
                     [(7201000, UpdateStatus (Some "550000") (Some "Resolved"));
                      (7202000, AssignIssue (Some "550000") (Some staff_id))]
                     one_pending) "550000" _ eq_refl)
    as (j & Hj & _ & _ & Hd & _ & _ & _ & _ & Hc).
  exists j; split; [exact Hj|split; [exact Hd|exact Hc]].
Defined.

(* ------------------------------------------------------------------ *)
(** ** Invariants of the stored issues *)

Lemma update_first_In id f c c' u j :
  Store.update_first id f c = Some (c', u) -> In j c' -> In j c \/ j = u.
Proof.
  intros H Hj.
  destruct (update_first_split _ _ _ _ _ H) as (l1 & i & l2 & -> & -> & -> & _).
  rewrite in_app_iff in *; simpl in *.
  destruct Hj as [?|[<-|?]]; auto.
Qed.

(** Where a document of the state after a request comes from. *)
Lemma handle_In now r w j :
  In j (issues (fst (handle now r w))) ->
  In j (issues w)
  \/ (exists rnd err file b,
         r = Report rnd err file b /\ j = newIssue now rnd file b
         /\ missing_required b = false
         /\ validate j = true /\ geo_indexable (location j) = true)
  \/ (exists id s i,
         r = UpdateStatus id s /\ JS.falsy id = false /\ JS.falsy s = false
         /\ Store.findOne (JS.text id) (issues w) = Some i
         /\ j = Store.apply_set now (updateData now (JS.text s)) i)
  \/ (exists id u i oid,
         r = AssignIssue id u
         /\ Store.findOne (JS.text id) (issues w) = Some i
         /\ validate i = true
         /\ j = Store.with_assignedTo now oid i).
Proof.
  destruct r as [rnd err file b|id s|id u|id|]; simpl; auto.
  - destruct (post_report_cases now rnd err file b w)
      as [[_ H]|[(_ & _ & H)|[(_ & _ & _ & H)|(_ & Hm & c & Hi & H)]]];
      rewrite H; simpl; auto.
    apply insert_inr in Hi as (Hv & Hg & _ & ->).
    rewrite in_app_iff; simpl; intros [?|[<-|[]]]; auto.
    right; left; exists rnd, err, file, b; auto.
  - destruct (post_update_status_cases now id s w)
      as [[_ H]|[(_ & _ & _ & H)|(Hid & Hs & i & c & Hf & Hu & H)]];
      rewrite H; simpl; auto.
    intros Hj; destruct (update_first_In _ _ _ _ _ _ Hu Hj) as [?| ->]; auto.
    right; right; left; exists id, s, i; auto.
  - destruct (post_assign_issue_cases now id u w)
      as [[_ H]|[(_ & _ & _ & H)|[(_ & _ & _ & H)
         |[(_ & _ & i & o & _ & _ & _ & _ & H)
          |(_ & _ & i & o & c & Hf & _ & Hv & _ & Hup & H)]]]];
      rewrite H; simpl; auto.
    intros Hj; destruct (update_first_In _ _ _ _ _ _ Hup Hj) as [?| ->]; auto.
    right; right; right; exists id, u, i, o; auto.
Qed.

Lemma served_reachable t w : served t w -> reachable t w.
Proof.
  induction 1 as [t|t w now r H IH Hle Hd]; [constructor|].
  now apply reachable_step with (t := t).
Qed.

Lemma reachable_NoDup t w : reachable t w -> NoDup (map issueId (issues w)).
Proof.
  induction 1 as [t|t w now r H IH Hle]; [constructor|].
  eapply effect_NoDup; [apply handle_effect|exact IH].
Qed.




Lemma served_six_digits t w :
  served t w -> Forall (fun i => SpecText.six_digits (issueId i) = true) (issues w).
Proof.
  induction 1 as [t|t w now r H IH Hle Hd]; [constructor|].
  apply Forall_forall; intros j Hj.
  rewrite Forall_forall in IH.
  destruct (handle_In now r w j Hj)
    as [Hold|[(rnd & err & file & b & -> & -> & _)
       |[(id & s & i & _ & _ & _ & Hf & ->)|(id & u & i & oid & _ & Hf & _ & ->)]]];
    auto.
  - destruct Hd as [H0 H1].
    destruct (generateIssueId_six_digits rnd H0 H1) as (n & _ & _ & Hsix).
    exact Hsix.
  - apply findOne_has_id in Hf as [Hi _]. exact (IH i Hi).
  - apply findOne_has_id in Hf as [Hi _]. exact (IH i Hi).
Qed.


Lemma run_served log :
  forall t w, served t w -> nondecreasing t log = true ->
              Forall (fun p => draw_in_range (snd p)) log ->
              served (end_time t log) (run log w).
Proof.
  induction log as [|[now r] rest IH]; simpl; intros t w Hw Hlog Hd; auto.
  apply andb_true_iff in Hlog as [Hle Hrest].
  inversion Hd as [|p l Hp Hl]; subst.
  apply IH; auto.
  apply served_step with (t := t); auto.
  now apply Z.leb_le.
Qed.

Lemma busy_served : served 5000 busy.
Proof.
  apply (run_served busy_log 0 empty_world); [constructor|reflexivity|].
  repeat constructor; discriminate.
Qed.


(** X10. The timestamps of a stored issue are in order.  In a state reached
    at instants no later than [t], every issue was created no later than it
    was last updated, which is no later than [t]; and when it carries a
    resolution time, that time lies between its creation and its last
    update. *)
Theorem timestamps_in_order t w :
  reachable t w -> Forall (timestamps_ordered t) (issues w).
Proof.
  induction 1 as [t|t w now r H IH Hle]; [constructor|].
  apply Forall_forall; intros j Hj.
  rewrite Forall_forall in IH.
  assert (Hold : forall i, In i (issues w) ->
                           createdAt i <= updatedAt i <= now
                           /\ forall x, resolvedAt i = Some x ->
                                        createdAt i <= x <= updatedAt i).
  { intros i Hi; destruct (IH i Hi) as [H1 H2]; split; [lia|exact H2]. }
  destruct (handle_In now r w j Hj)
    as [Hin|[(rnd & err & file & b & _ & -> & _)
       |[(id & s & i & _ & _ & _ & Hf & ->)|(id & u & i & oid & _ & Hf & _ & ->)]]].
  - exact (Hold j Hin).
  - split; simpl; [lia|discriminate].
  - apply findOne_has_id in Hf as [Hi _].
    destruct (IH i Hi) as [H1 H2].
    split; simpl; [lia|].
    intros x Hx.
    destruct (JS.text s =? "Resolved")%string.
    + injection Hx as <-; lia.
    + specialize (H2 x Hx); lia.
  - apply findOne_has_id in Hf as [Hi _].
    destruct (IH i Hi) as [H1 H2].
    split; simpl; [lia|].
    intros x Hx; specialize (H2 x Hx); lia.
Qed.

Lemma timestamps_in_order_witness : Forall (timestamps_ordered 5000) (issues busy).
Proof.
  apply (timestamps_in_order 5000 busy).
  apply (run_reachable busy_log 0 empty_world); [constructor|reflexivity].
Defined.

Lemma NoDup_findOne c i :
  NoDup (map issueId c) -> In i c -> Store.findOne (issueId i) c = Some i.
Proof.
  unfold Store.findOne.
  induction c as [|a r IH]; simpl; intros Hn Hi; [contradiction|].
  inversion Hn as [|x l Hnotin Hrest]; subst.
  destruct Hi as [->|Hi].
  - unfold Store.has_id; now rewrite String.eqb_refl.
  - destruct (Store.has_id (issueId i) a) eqn:Ha; [|auto].
    apply has_id_eq in Ha.
    exfalso; apply Hnotin; rewrite Ha; now apply in_map.
Qed.



(* ------------------------------------------------------------------ *)
(** ** Facts about texts *)

Lemma append_nil_r s : (s ++ "")%string = s.
Proof. induction s as [|c r IH]; simpl; [reflexivity|now rewrite IH]. Qed.

Lemma length_append s t :
  String.length (s ++ t) = (String.length s + String.length t)%nat.
Proof. induction s as [|c r IH]; simpl; [reflexivity|now rewrite IH]. Qed.

Lemma length_zero s : String.length s = 0%nat -> s = "".
Proof. destruct s; [reflexivity|discriminate]. Qed.

Lemma prefix_spec t : forall s, prefix t s = true <-> exists q, s = (t ++ q)%string.
Proof.
  induction t as [|a t IH]; intros s; destruct s as [|b s]; simpl.
  - split; [intros _; now exists ""|reflexivity].
  - split; [intros _; now exists (String b s)|reflexivity].
  - split; [discriminate|intros [q Hq]; discriminate].
  - destruct (ascii_dec a b) as [->|Hne].
    + rewrite IH; split; intros [q Hq]; exists q; [now rewrite Hq|now injection Hq].
    + split; [discriminate|intros [q Hq]; injection Hq; intros; congruence].
Qed.

(** [s.includes(t)] holds exactly when [t] occurs in [s]. *)
Lemma includes_spec s t :
  JSString.includes s t = true <-> exists p q, s = (p ++ t ++ q)%string.
Proof.
  induction s as [|c r IH].
  - change (JSString.includes "" t) with (prefix t "" || false).
    rewrite orb_false_r, prefix_spec. split.
    + intros [q Hq]; now exists "", q.
    + intros (p & q & H). destruct p; [now exists q|discriminate].
  - change (JSString.includes (String c r) t)
      with (prefix t (String c r) || JSString.includes r t).
    rewrite orb_true_iff, prefix_spec, IH. split.
    + intros [[q Hq]|(p & q & Hq)].
      * now exists "", q.
      * exists (String c p), q; simpl; now rewrite Hq.
    + intros (p & q & H). destruct p as [|a p]; simpl in H.
      * left; now exists q.
      * right; exists p, q; now injection H.
Qed.

Lemma includes_same_length s t :
  JSString.includes s t = true -> String.length s = String.length t -> s = t.
Proof.
  intros H Hl. apply includes_spec in H as (p & q & ->).
  rewrite !length_append in Hl.
  assert (Hp : p = "") by (apply length_zero; lia).
  assert (Hq : q = "") by (apply length_zero; lia).
  subst; simpl; apply append_nil_r.
Qed.

Lemma digit_not_space c : JS.is_digit c = true -> JS.is_space c = false.
Proof.
  unfold JS.is_digit, JS.is_space; intros H.
  apply andb_true_iff in H as [H1 H2].
  apply Nat.leb_le in H1, H2.
  destruct (Nat.eqb_spec (nat_of_ascii c) 32); [lia|].
  destruct (Nat.leb_spec (nat_of_ascii c) 13); [lia|].
  now rewrite andb_false_r.
Qed.

Lemma digit_lower c : JS.is_digit c = true -> lower c = c.
Proof.
  unfold JS.is_digit, lower; intros H.
  apply andb_true_iff in H as [H1 H2].
  apply Nat.leb_le in H1, H2.
  destruct (Nat.leb_spec 65 (nat_of_ascii c)); [lia|reflexivity].
Qed.

Lemma skip_space_digit c r :
  JS.is_digit c = true -> JS.skip_space (String c r) = String c r.
Proof.
  intros H. cbn [JS.skip_space]. rewrite (digit_not_space _ H).
  unfold JS.is_digit in H.
  apply andb_true_iff in H as [H1 H2]. apply Nat.leb_le in H1, H2.
  destruct r as [|c2 r2]; [reflexivity|].
  assert (E2 : JS.is_space2 c c2 = false).
  { unfold JS.is_space2.
    destruct (Nat.eqb_spec (nat_of_ascii c) 194); [lia|reflexivity]. }
  rewrite E2. destruct r2 as [|c3 r3]; [reflexivity|].
  assert (E3 : JS.is_space3 c c2 c3 = false).
  { unfold JS.is_space3.
    destruct (Nat.eqb_spec (nat_of_ascii c) 225); [lia|].
    destruct (Nat.eqb_spec (nat_of_ascii c) 226); [lia|].
    destruct (Nat.eqb_spec (nat_of_ascii c) 227); [lia|].
    destruct (Nat.eqb_spec (nat_of_ascii c) 239); [lia|].
    reflexivity. }
  now rewrite E3.
Qed.

Lemma trimEnd_digits s : all_chars JS.is_digit s = true -> JSString.trimEnd s = s.
Proof.
  induction s as [|c r IH]; [reflexivity|].
  cbn [all_chars]; intros H. apply andb_true_iff in H as [Hc Hr].
  cbn [JSString.trimEnd]. rewrite (skip_space_digit c r Hc), (IH Hr).
  reflexivity.
Qed.

(** Trimming and lower-casing leave a text of digits as it is. *)
Lemma digits_trim_lower s :
  all_chars JS.is_digit s = true ->
  JSString.trim s = s /\ JSString.toLowerCase s = s.
Proof.
  intros H. split.
  - unfold JSString.trim.
    assert (Hs : JS.skip_space s = s).
    { destruct s as [|c r]; [reflexivity|].
      cbn [all_chars] in H. apply andb_true_iff in H as [Hc _].
      now apply skip_space_digit. }
    rewrite Hs. now apply trimEnd_digits.
  - unfold JSString.toLowerCase.
    induction s as [|c r IH]; [reflexivity|]; simpl in *.
    apply andb_true_iff in H as [Hc Hr].
    now rewrite (digit_lower _ Hc), (IH Hr).
Qed.

Lemma six_digits_inv s :
  SpecText.six_digits s = true ->
  String.length s = 6%nat /\ all_chars JS.is_digit s = true /\ s <> "".
Proof.
  unfold SpecText.six_digits; intros H.
  apply andb_true_iff in H as [Hl Hd]. apply Nat.eqb_eq in Hl.
  repeat split; auto. intros ->; discriminate.
Qed.

(* ------------------------------------------------------------------ *)
(** ** The upload filter *)

(** X14. The upload filter accepts a file exactly when one of the words
    jpeg, jpg, png, gif occurs somewhere in its lower-cased extension and
    one of them occurs somewhere in its declared type; the two tests are not
    anchored and do not compare the extension with the type.  A file name
    without extension is always refused, and the refusal is the error
    "Error: Please upload images only (jpeg, jpg, png, gif).". *)
Theorem checkFileType_accepts ext mimetype :
  (Upload.checkFileType ext mimetype = None
   <-> (exists t p q, In t Upload.filetypes
                      /\ JSString.toLowerCase ext = (p ++ t ++ q)%string)
       /\ (exists t p q, In t Upload.filetypes
                         /\ mimetype = (p ++ t ++ q)%string))
  /\ Upload.checkFileType "" mimetype <> None
  /\ (Upload.checkFileType ext mimetype <> None ->
      Upload.checkFileType ext mimetype
      = Some "Error: Please upload images only (jpeg, jpg, png, gif).").
Proof.
  assert (Htest : forall x, Upload.filetypes_test x = true
                            <-> exists t p q, In t Upload.filetypes
                                              /\ x = (p ++ t ++ q)%string).
  { intros x; unfold Upload.filetypes_test; rewrite existsb_exists. split.
    - intros (t & Ht & H). apply includes_spec in H as (p & q & H). eauto.
    - intros (t & p & q & Ht & H). exists t; split; [exact Ht|].
      apply includes_spec; eauto. }
  unfold Upload.checkFileType.
  split; [|split].
  - rewrite <- !Htest.
    destruct (Upload.filetypes_test mimetype),
             (Upload.filetypes_test (JSString.toLowerCase ext)); simpl;
      intuition congruence.
  - destruct (Upload.filetypes_test mimetype); simpl; discriminate.
  - destruct (Upload.filetypes_test mimetype && _); [intros H; now contradiction H|].
    reflexivity.
Qed.

Lemma checkFileType_accepts_witness :
  Upload.checkFileType ".JPG" "image/jpeg" = None
  /\ Upload.checkFileType ".pdf" "application/pdf"
     = Some "Error: Please upload images only (jpeg, jpg, png, gif).".
Proof.
  split.
  - apply (checkFileType_accepts ".JPG" "image/jpeg"). split.
    + exists "jpg", ".", ""; split; [right; left|]; reflexivity.
    + exists "jpeg", "image/", ""; split; [left|]; reflexivity.
  - apply (checkFileType_accepts ".pdf" "application/pdf"). discriminate.
Defined.

(* ------------------------------------------------------------------ *)
(** ** Searching and tracking by id from the two pages *)

Lemma filter_none (A : Type) (p : A -> bool) (l : list A) :
  (forall y, In y l -> p y = false) -> filter p l = [].
Proof.
  induction l as [|a r IH]; simpl; intros H; [reflexivity|].
  rewrite (H a (or_introl eq_refl)). apply IH; auto.
Qed.

Lemma filter_unique (A : Type) (p : A -> bool) (l : list A) (x : A) :
  NoDup l -> In x l -> (forall y, In y l -> (p y = true <-> y = x)) ->
  filter p l = [x].
Proof.
  induction l as [|a r IH]; simpl; intros Hn Hx Hp; [contradiction|].
  inversion Hn as [|b l' Hnotin Hrest]; subst.
  destruct Hx as [->|Hx].
  - rewrite (proj2 (Hp x (or_introl eq_refl)) eq_refl). f_equal.
    apply filter_none.
    intros y Hy. destruct (p y) eqn:Hpy; [|reflexivity].
    apply (Hp y (or_intror Hy)) in Hpy; subst; contradiction.
  - destruct (p a) eqn:Hpa.
    + apply (Hp a (or_introl eq_refl)) in Hpa; subst; contradiction.
    + apply IH; auto.
Qed.

(** X15. Searching the table of the dashboard by a full tracking id.  When
    the master list of the dashboard holds the issues of a state of the
    server (in any order) and every id was drawn by [Math.random()], typing
    the tracking id of a stored issue in the search box, with no status
    filter, leaves that issue and no other in the table. *)
Theorem search_by_tracking_id t w allIssues i :
  served t w -> Permutation allIssues (issues w) -> In i (issues w) ->
  Dashboard.applyFilters "" (issueId i) allIssues = [i].
Proof.
  intros Hw Hperm Hi.
  pose proof (served_six_digits t w Hw) as Hsix.
  rewrite Forall_forall in Hsix.
  destruct (six_digits_inv _ (Hsix i Hi)) as (Hlen & Hdig & Hne).
  destruct (digits_trim_lower _ Hdig) as [Htrim Hlow].
  unfold Dashboard.applyFilters.
  rewrite Htrim, Hlow; simpl.
  apply String.eqb_neq in Hne; rewrite Hne.
  assert (Hnd : NoDup (map issueId allIssues)).
  { eapply Permutation_NoDup; [apply Permutation_map, Permutation_sym, Hperm|].
    eapply reachable_NoDup, served_reachable, Hw. }
  apply filter_unique.
  - eapply NoDup_map_inv, Hnd.
  - eapply Permutation_in; [apply Permutation_sym, Hperm|exact Hi].
  - intros y Hy. split.
    + intros Hinc.
      assert (Hy' : In y (issues w)) by (eapply Permutation_in; eauto).
      destruct (six_digits_inv _ (Hsix y Hy')) as (Hleny & _ & _).
      apply includes_same_length in Hinc; [|congruence].
      assert (Hf : Store.findOne (issueId y) allIssues = Some y)
        by now apply NoDup_findOne.
      assert (Hf' : Store.findOne (issueId i) allIssues = Some i).
      { apply NoDup_findOne; [exact Hnd|].
        eapply Permutation_in; [apply Permutation_sym, Hperm|exact Hi]. }
      congruence.
    + intros ->. apply includes_spec. exists "", "". simpl.
      now rewrite append_nil_r.
Qed.

Lemma search_by_tracking_id_witness :
  Dashboard.applyFilters "" "325000" (rev (issues busy))
  = filter (fun i => (issueId i =? "325000")%string) (issues busy).
Proof.
  assert (Hi : In (nth 1 (issues busy) (newIssue 0 0 None pothole_report)) (issues busy))
    by (right; left; reflexivity).
  exact (search_by_tracking_id 5000 busy (rev (issues busy)) _ busy_served
           (Permutation_sym (Permutation_rev (issues busy))) Hi).
Defined.

(** X16. The tracking form of the citizen page.  Whatever the form sends
    to the server is the trimmed text of the box and is six digits; and in
    a state whose ids were drawn by [Math.random()], the id of every stored
    issue, typed in the box, is sent as it is, also with white space around
    it, and the reply is that issue, with its [assignedTo] as [populate]
    shows it. *)
Theorem track_form_finds_issue users :
  (forall box id, Citizen.track_input box = Some id ->
                  id = JSString.trim box /\ SpecText.six_digits id = true)
  /\ (forall t w i, served t w -> In i (issues w) ->
                    Citizen.track_input (issueId i) = Some (issueId i)
                    /\ Citizen.track_input (" " ++ issueId i) = Some (issueId i)
                    /\ Populate.get_track_status users (issueId i) w
                       = (mkReply 200 None (Document i),
                          Populate.populate users false (assignedTo i))).
Proof.
  split.
  - intros box id; unfold Citizen.track_input.
    destruct (JSString.trim box =? "")%string; simpl; [discriminate|].
    destruct (SpecText.six_digits (JSString.trim box)) eqn:H; simpl; [|discriminate].
    intros [= <-]; auto.
  - intros t w i Hw Hi.
    pose proof (served_six_digits t w Hw) as Hsix.
    rewrite Forall_forall in Hsix.
    destruct (six_digits_inv _ (Hsix i Hi)) as (_ & Hdig & Hne).
    destruct (digits_trim_lower _ Hdig) as [Htrim _].
    assert (Hin : Citizen.track_input (issueId i) = Some (issueId i)).
    { unfold Citizen.track_input. rewrite Htrim, (Hsix i Hi).
      apply String.eqb_neq in Hne. now rewrite Hne. }
    split; [exact Hin|split].
    + unfold Citizen.track_input in *.
      change (JSString.trim (" " ++ issueId i)) with (JSString.trim (issueId i)).
      exact Hin.
    + unfold Populate.get_track_status, Populate.shown, get_track_status.
      now rewrite (NoDup_findOne _ _ (reachable_NoDup _ _ (served_reachable _ _ Hw)) Hi).
Qed.

Lemma track_form_finds_issue_witness :
  Forall (fun i => Citizen.track_input (issueId i) = Some (issueId i)) (issues busy)
  /\ SpecText.six_digits "012345" = true
  /\ "550000" = JSString.trim (nbsp ++ "550000" ++ nbsp).
Proof.
  split; [|split].
  - apply Forall_forall; intros i Hi.
    apply (proj2 (track_form_finds_issue staff_room) 5000 busy i busy_served Hi).
  - apply (proj1 (track_form_finds_issue staff_room) "  012345 " "012345"). reflexivity.
  - apply (proj1 (track_form_finds_issue staff_room) (nbsp ++ "550000" ++ nbsp) "550000").
    reflexivity.
Defined.

(* ------------------------------------------------------------------ *)
(** ** The group counts and the cards of the dashboard *)

Lemma count_key_cons k a keys :
  count_key k (a :: keys) = (if (a =? k)%string then 1 else 0) + count_key k keys.
Proof.
  unfold count_key; simpl. rewrite (String.eqb_sym k a).
  destruct (a =? k)%string; simpl List.length; lia.
Qed.

Lemma count_key_nonneg k keys : 0 <= count_key k keys.
Proof. unfold count_key; lia. Qed.

Lemma count_in_bump k k' g :
  count_in k' (Aggregate.bump k g)
  = count_in k' g + (if (k =? k')%string then 1 else 0).
Proof.
  unfold count_in.
  induction g as [|[k0 n0] r IH]; simpl.
  - destruct (k =? k')%string; simpl; lia.
  - destruct (String.eqb_spec k0 k) as [->|Hne]; simpl.
    + destruct (k =? k')%string; simpl; lia.
    + destruct (String.eqb_spec k0 k') as [->|Hne']; simpl; [|exact IH].
      apply String.eqb_neq in Hne. rewrite String.eqb_sym, Hne. lia.
Qed.

Lemma count_in_group k keys :
  forall g, count_in k (fold_left (fun g k => Aggregate.bump k g) keys g)
            = count_in k g + count_key k keys.
Proof.
  induction keys as [|a r IH]; intros g; simpl.
  - unfold count_key; simpl; lia.
  - rewrite IH, count_in_bump, count_key_cons. lia.
Qed.

Lemma bump_keys k g x :
  In x (map fst (Aggregate.bump k g)) <-> x = k \/ In x (map fst g).
Proof.
  induction g as [|[k0 n0] r IH]; simpl.
  - intuition.
  - destruct (String.eqb_spec k0 k) as [->|Hne]; simpl; [intuition|].
    rewrite IH; intuition.
Qed.

Lemma bump_NoDup k g : NoDup (map fst g) -> NoDup (map fst (Aggregate.bump k g)).
Proof.
  induction g as [|[k0 n0] r IH]; simpl; intros H.
  - constructor; [intros []|constructor].
  - inversion H as [|x l Hnotin Hrest]; subst.
    destruct (String.eqb_spec k0 k) as [->|Hne]; simpl; [now constructor|].
    constructor; [|auto].
    rewrite bump_keys; intros [->|Hin]; [now apply Hne|contradiction].
Qed.

Lemma bump_positive k g :
  Forall (fun p => 0 < snd p) g -> Forall (fun p => 0 < snd p) (Aggregate.bump k g).
Proof.
  induction 1 as [|[k0 n0] r Hp Hr IH]; simpl.
  - repeat constructor.
  - simpl in Hp. destruct (k0 =? k)%string; constructor; simpl; auto; lia.
Qed.

Lemma group_invariant keys :
  forall g, NoDup (map fst g) -> Forall (fun p => 0 < snd p) g ->
            NoDup (map fst (fold_left (fun g k => Aggregate.bump k g) keys g))
            /\ Forall (fun p => 0 < snd p)
                      (fold_left (fun g k => Aggregate.bump k g) keys g).
Proof.
  induction keys as [|a r IH]; intros g Hn Hp; simpl; [auto|].
  apply IH; [now apply bump_NoDup|now apply bump_positive].
Qed.

(** In a list of groups with distinct keys and positive counts, the pairs
    are the keys with a positive count, each with its count. *)
Lemma In_count_in g k n :
  NoDup (map fst g) -> Forall (fun p => 0 < snd p) g ->
  (In (k, n) g <-> n = count_in k g /\ 0 < n).
Proof.
  unfold count_in.
  induction g as [|[k0 n0] r IH]; simpl; intros Hn Hp.
  - split; [intros []|intros [-> H]; lia].
  - inversion Hn as [|x l Hnotin Hrest]; subst.
    inversion Hp as [|x l Hp0 Hpr]; subst. simpl in Hp0.
    destruct (String.eqb_spec k0 k) as [->|Hne]; simpl.
    + split.
      * intros [[= ->]|Hin]; [auto|].
        exfalso; apply Hnotin. now apply (in_map fst) in Hin.
      * intros [-> _]; now left.
    + rewrite <- IH by assumption.
      split; [intros [[= Hk _]|Hin]; [contradiction|exact Hin]|now right].
Qed.

Lemma group_groups_of keys : groups_of keys (Aggregate.group keys).
Proof.
  destruct (group_invariant keys [] (NoDup_nil _) (Forall_nil _)) as [Hn Hp].
  split; [exact Hn|].
  intros k n. unfold Aggregate.group.
  rewrite (In_count_in _ k n Hn Hp), count_in_group.
  unfold count_in at 1; simpl. tauto.
Qed.

Lemma groups_of_perm keys g g' :
  groups_of keys g -> Permutation g g' -> groups_of keys g'.
Proof.
  intros [Hn Hin] Hp. split.
  - eapply Permutation_NoDup; [apply Permutation_map, Hp|exact Hn].
  - intros k n. rewrite <- Hin. split; apply Permutation_in;
      [now apply Permutation_sym|exact Hp].
Qed.

Lemma insert_desc_perm x l : Permutation (Aggregate.insert_desc x l) (x :: l).
Proof.
  induction l as [|y r IH]; simpl; [reflexivity|].
  destruct (snd y <? snd x); [reflexivity|].
  rewrite IH. apply perm_swap.
Qed.

Lemma sort_desc_perm l : Permutation (Aggregate.sort_desc l) l.
Proof.
  induction l as [|x r IH]; simpl; [reflexivity|].
  rewrite insert_desc_perm. now constructor.
Qed.

Lemma insert_desc_sorted x l :
  StronglySorted by_count_desc l ->
  StronglySorted by_count_desc (Aggregate.insert_desc x l).
Proof.
  induction 1 as [|y r Hr IH Hy]; simpl.
  - constructor; constructor.
  - destruct (Z.ltb_spec (snd y) (snd x)) as [Hlt|Hge].
    + constructor; [now constructor|].
      constructor; [unfold by_count_desc; lia|].
      eapply Forall_impl; [|exact Hy].
      unfold by_count_desc; intros; lia.
    + constructor; [exact IH|].
      eapply Permutation_Forall; [apply Permutation_sym, insert_desc_perm|].
      constructor; [unfold by_count_desc; lia|exact Hy].
Qed.

Lemma sort_desc_sorted l : StronglySorted by_count_desc (Aggregate.sort_desc l).
Proof.
  induction l as [|x r IH]; simpl; [constructor|now apply insert_desc_sorted].
Qed.

(** X17. The two group counts of the analytics handler.  The status counts
    hold one pair per status that occurs, with the number of issues that
    have it; the trend data hold one pair per category that occurs, with
    the number of issues of that category, larger counts first. *)
Theorem analytics_groups c :
  groups_of (map status c) (Aggregate.statusCounts c)
  /\ groups_of (map issueType c) (Aggregate.trendData c)
  /\ StronglySorted by_count_desc (Aggregate.trendData c).
Proof.
  split; [apply group_groups_of|split].
  - eapply groups_of_perm; [apply group_groups_of|].
    apply Permutation_sym, sort_desc_perm.
  - apply sort_desc_sorted.
Qed.

Lemma groups_of_positive keys sc :
  groups_of keys sc -> Forall (fun p => 0 < snd p) sc.
Proof.
  intros [_ Hin]. apply Forall_forall; intros [k n] Hp.
  now apply Hin in Hp.
Qed.

Lemma groups_of_count_in keys sc k :
  groups_of keys sc -> count_in k sc = count_key k keys.
Proof.
  intros Hg. pose proof (groups_of_positive _ _ Hg) as Hpos.
  destruct Hg as [Hn Hin].
  destruct (Z.eq_dec (count_in k sc) 0) as [H0|H0].
  - destruct (Z.eq_dec (count_key k keys) 0) as [|Hk]; [congruence|].
    assert (Hp : In (k, count_key k keys) sc)
      by (apply Hin; split; [reflexivity|pose proof (count_key_nonneg k keys); lia]).
    apply (In_count_in _ _ _ Hn Hpos) in Hp. lia.
  - assert (Hp : In (k, count_in k sc) sc).
    { apply (In_count_in _ _ _ Hn Hpos). split; [reflexivity|].
      unfold count_in in *.
      destruct (find (fun p => (fst p =? k)%string) sc) as [p|] eqn:Hf; [|lia].
      apply find_some in Hf as [Hp _].
      rewrite Forall_forall in Hpos. now apply Hpos. }
    now apply Hin in Hp.
Qed.

Lemma count_in_cons k k0 n0 r :
  count_in k ((k0, n0) :: r) = if (k0 =? k)%string then n0 else count_in k r.
Proof. unfold count_in; simpl. now destruct (k0 =? k)%string. Qed.

Lemma count_in_notin k g : ~ In k (map fst g) -> count_in k g = 0.
Proof.
  unfold count_in; intros H.
  destruct (find (fun p => (fst p =? k)%string) g) as [p|] eqn:Hf; [|reflexivity].
  apply find_some in Hf as [Hp Hk]. apply String.eqb_eq in Hk.
  exfalso; apply H. rewrite <- Hk. now apply in_map.
Qed.

Lemma fold_left_sum (l : list (string * Z)) :
  forall a, fold_left (fun sum s => sum + snd s) l a
            = a + fold_right Z.add 0 (map snd l).
Proof.
  induction l as [|x r IH]; intros a; simpl; [lia|].
  rewrite IH; lia.
Qed.

Lemma totalPending_counts sc :
  NoDup (map fst sc) ->
  Dashboard.totalPending sc
  = count_in "Pending" sc + count_in "Acknowledged" sc + count_in "In Progress" sc.
Proof.
  unfold Dashboard.totalPending. rewrite fold_left_sum, Z.add_0_l.
  induction sc as [|[k0 n0] r IH]; intros Hn; [reflexivity|].
  inversion Hn as [|x l Hnotin Hrest]; subst.
  rewrite !count_in_cons.
  cbn [filter fst].
  destruct (member k0 Dashboard.pendingStatuses) eqn:Hm;
    unfold member, Dashboard.pendingStatuses in Hm; cbn [existsb] in Hm.
  - cbn [map fold_right snd]. rewrite (IH Hrest).
    repeat (apply orb_true_iff in Hm as [Hm|Hm]);
      try discriminate Hm; apply String.eqb_eq in Hm; subst k0;
      cbn [String.eqb Ascii.eqb Bool.eqb andb];
      rewrite (count_in_notin _ _ Hnotin); lia.
  - rewrite (IH Hrest).
    repeat (apply orb_false_iff in Hm as [? Hm]).
    repeat match goal with
           | H : (_ =? _)%string = false |- _ => rewrite H; clear H
           end.
    reflexivity.
Qed.

Lemma totalResolved_count sc : Dashboard.totalResolved sc = count_in "Resolved" sc.
Proof.
  unfold Dashboard.totalResolved, count_in.
  destruct (find (fun s => (fst s =? "Resolved")%string) sc) as [p|]; [|reflexivity].
  destruct (Z.eqb_spec (snd p) 0); congruence.
Qed.

Lemma count_key_filter k c :
  count_key k (map status c)
  = Z.of_nat (List.length (filter (fun i => (status i =? k)%string) c)).
Proof.
  induction c as [|a r IH]; [reflexivity|].
  cbn [map]. rewrite count_key_cons, IH. cbn [filter].
  destruct (status a =? k)%string; simpl List.length; lia.
Qed.

(** The four counts of the listed statuses, issue by issue. *)
Lemma listed_counts c :
  count_key "Pending" (map status c) + count_key "Acknowledged" (map status c)
  + count_key "In Progress" (map status c)
  = Z.of_nat (List.length
                (filter (fun i => member (status i) Dashboard.pendingStatuses) c))
  /\ count_key "Pending" (map status c) + count_key "Acknowledged" (map status c)
     + count_key "In Progress" (map status c) + count_key "Resolved" (map status c)
     <= Z.of_nat (List.length c)
  /\ (count_key "Pending" (map status c) + count_key "Acknowledged" (map status c)
      + count_key "In Progress" (map status c) + count_key "Resolved" (map status c)
      = Z.of_nat (List.length c)
      <-> Forall (fun i => member (status i) status_enum = true) c).
Proof.
  induction c as [|a r (IH1 & IH2 & IH3)].
  - repeat split; simpl; try (unfold count_key; simpl; lia); constructor.
  - cbn [map filter]. rewrite !count_key_cons.
    unfold member, Dashboard.pendingStatuses, status_enum in *; cbn [existsb] in *.
    assert (Hcons : forall P : Prop,
               (P <-> Forall (fun i : Issue =>
                                (status i =? "Pending")%string
                                || ((status i =? "Acknowledged")%string
                                    || ((status i =? "In Progress")%string
                                        || ((status i =? "Resolved")%string || false)))
                                = true) r) ->
               forall b : bool,
                 (status a =? "Pending")%string
                 || ((status a =? "Acknowledged")%string
                     || ((status a =? "In Progress")%string
                         || ((status a =? "Resolved")%string || false))) = b ->
                 (b = true /\ P
                  <-> Forall (fun i : Issue =>
                                (status i =? "Pending")%string
                                || ((status i =? "Acknowledged")%string
                                    || ((status i =? "In Progress")%string
                                        || ((status i =? "Resolved")%string || false)))
                                = true) (a :: r))).
    { intros P HP b Hb. rewrite Forall_cons_iff, Hb, HP. tauto. }
    destruct (String.eqb_spec (status a) "Pending") as [E1|E1];
      [rewrite ?E1|destruct (String.eqb_spec (status a) "Acknowledged") as [E2|E2];
        [rewrite ?E2|destruct (String.eqb_spec (status a) "In Progress") as [E3|E3];
          [rewrite ?E3|destruct (String.eqb_spec (status a) "Resolved") as [E4|E4];
            [rewrite ?E4|]]]];
      cbn [String.eqb Ascii.eqb Bool.eqb orb andb List.length];
      (split; [lia|split; [lia|]]);
      (rewrite <- (Hcons _ IH3 _ eq_refl)); lia.
Qed.

(** X18. The cards of the dashboard.  Whatever the order in which the
    store returns the status groups, the card of pending issues shows the
    number of issues whose status is Pending, Acknowledged or In Progress,
    and the card of resolved issues the number of issues whose status is
    Resolved.  The two cards add up to the number of issues exactly when
    every issue has one of the four statuses of the schema. *)
Theorem dashboard_cards c sc :
  groups_of (map status c) sc ->
  Dashboard.totalPending sc
  = Z.of_nat (List.length
                (filter (fun i => member (status i) Dashboard.pendingStatuses) c))
  /\ Dashboard.totalResolved sc
     = Z.of_nat (List.length (filter (fun i => (status i =? "Resolved")%string) c))
  /\ (Dashboard.totalPending sc + Dashboard.totalResolved sc
      = Z.of_nat (List.length c)
      <-> Forall (fun i => member (status i) status_enum = true) c).
Proof.
  intros Hg.
  rewrite (totalPending_counts sc (proj1 Hg)), totalResolved_count.
  rewrite !(groups_of_count_in _ _ _ Hg).
  destruct (listed_counts c) as (H1 & _ & H3).
  split; [exact H1|split; [apply count_key_filter|exact H3]].
Qed.

Lemma dashboard_cards_witness :
  Dashboard.totalPending (Aggregate.statusCounts (issues busy)) = 1
  /\ Dashboard.totalResolved (rev (Aggregate.statusCounts (issues busy))) = 1.
Proof.
  split.
  - exact (proj1 (dashboard_cards (issues busy) _ (group_groups_of _))).
  - refine (proj1 (proj2 (dashboard_cards (issues busy) _ _))).
    eapply groups_of_perm; [apply group_groups_of|apply Permutation_rev].
Defined.

(** X19. The most reported category.  For trend data that hold the
    category groups with larger counts first, the dashboard shows "N/A"
    when there is no issue, and otherwise a category that at least one
    issue has and that no other category outnumbers. *)
Theorem most_reported_is_maximal c td :
  groups_of (map issueType c) td -> StronglySorted by_count_desc td ->
  (c = [] -> Dashboard.mostReported td = "N/A")
  /\ (c <> [] ->
      0 < count_key (Dashboard.mostReported td) (map issueType c)
      /\ forall k, count_key k (map issueType c)
                   <= count_key (Dashboard.mostReported td) (map issueType c)).
Proof.
  intros Hg Hs. destruct Hg as [Hn Hin]. split.
  - intros ->. destruct td as [|[k n] r]; [reflexivity|].
    destruct (proj1 (Hin k n) (or_introl eq_refl)) as [Hk Hpos].
    unfold count_key in Hk; simpl in Hk; lia.
  - intros Hc.
    destruct td as [|[k n] r].
    + destruct c as [|a c']; [contradiction|].
      assert (Hp : In (issueType a, count_key (issueType a) (map issueType (a :: c'))) [])
        by (apply Hin; split; [reflexivity|];
            cbn [map]; rewrite count_key_cons, String.eqb_refl;
            pose proof (count_key_nonneg (issueType a) (map issueType c')); lia).
      destruct Hp.
    + simpl. destruct (proj1 (Hin k n) (or_introl eq_refl)) as [Hk Hpos].
      rewrite <- Hk. split; [exact Hpos|].
      intros k'.
      destruct (Z.eq_dec (count_key k' (map issueType c)) 0) as [->|Hne]; [lia|].
      assert (Hp : In (k', count_key k' (map issueType c)) ((k, n) :: r))
        by (apply Hin; split; [reflexivity|];
            pose proof (count_key_nonneg k' (map issueType c)); lia).
      destruct Hp as [[= _ <-]|Hp]; [lia|].
      apply StronglySorted_inv in Hs as [_ Hall].
      rewrite Forall_forall in Hall. exact (Hall _ Hp).
Qed.

Lemma most_reported_is_maximal_witness :
  Dashboard.mostReported (Aggregate.trendData []) = "N/A"
  /\ 0 < count_key (Dashboard.mostReported (Aggregate.trendData (issues busy)))
                   (map issueType (issues busy)).
Proof.
  assert (H : forall c, groups_of (map issueType c) (Aggregate.trendData c)).
  { intros c. eapply groups_of_perm; [apply group_groups_of|].
    apply Permutation_sym, sort_desc_perm. }
  split.
  - apply (most_reported_is_maximal [] _ (H []) (sort_desc_sorted _)). reflexivity.
  - apply (most_reported_is_maximal (issues busy) _ (H _) (sort_desc_sorted _)).
    discriminate.
Defined.

(* ------------------------------------------------------------------ *)
(** ** The lifecycle as the dashboard drives it *)

Lemma operated_reachable t w : operated t w -> reachable t w.
Proof.
  induction 1 as [t|t w now rnd err file b H IH Hle|t w now r H IH Hle Hs];
    [constructor| |].
  - exact (reachable_step t w now (Report rnd err file b) IH Hle).
  - exact (reachable_step t w now r IH Hle).
Qed.

(** What the dashboard can send is a status update of an issue that it
    shows as not resolved, to one of the three statuses of the menu, or an
    assignment. *)
Lemma sends_inv shown r :
  Dashboard.sends shown r ->
  (exists issue value,
      In issue shown /\ status issue <> "Resolved"
      /\ (value = "Acknowledged" \/ value = "In Progress" \/ value = "Resolved")
      /\ r = UpdateStatus (Some (issueId issue)) (Some value))
  \/ (exists issue value, In issue shown
                          /\ r = AssignIssue (Some (issueId issue)) (Some value)).
Proof.
  intros [issue value r' Hi Hd Hv Hr|issue value r' Hi Hr];
    unfold Dashboard.on_change in Hr;
    destruct (issueId issue =? "")%string; try discriminate Hr;
    destruct (String.eqb_spec value ""); try discriminate Hr;
    injection Hr as <-.
  - left; exists issue, value; repeat split; auto.
    + unfold Dashboard.action_disabled in Hd. now apply String.eqb_neq.
    + destruct Hv as [<-|[<-|[<-|[<-|[]]]]]; auto. contradiction.
  - right; exists issue, value; auto.
Qed.

Lemma lifecycle_consistent_new now rnd file b :
  lifecycle_consistent (newIssue now rnd file b).
Proof.
  unfold lifecycle_consistent; simpl. split; [reflexivity|].
  split; [intros H; now contradiction H|discriminate].
Qed.

(** X20. The lifecycle under the dashboard.  When every status update comes
    from the dashboard showing the current issues, every stored issue has
    one of the four statuses of the schema, and it carries a resolution
    time if and only if its status is Resolved. *)
Theorem dashboard_keeps_lifecycle t w :
  operated t w -> Forall lifecycle_consistent (issues w).
Proof.
  intros Hop.
  induction Hop as [t|t w now rnd err file b H IH Hle|t w now r H IH Hle Hs];
    [constructor| |]; apply Forall_forall; intros j Hj;
    rewrite Forall_forall in IH.
  - change (post_report now rnd err file b w)
      with (handle now (Report rnd err file b) w) in Hj.
    destruct (handle_In _ _ _ _ Hj)
      as [Hold|[(rnd' & err' & file' & b' & _ & -> & _)
         |[(id & s & i & Hr & _)|(id & u & i & oid & Hr & _)]]];
      try discriminate Hr; auto using lifecycle_consistent_new.
  - pose proof (reachable_NoDup _ _ (operated_reachable _ _ H)) as Hnd.
    destruct (handle_In _ _ _ _ Hj)
      as [Hold|[(rnd' & err' & file' & b' & _ & -> & _)
         |[(id & s & i & Hr & _ & _ & Hf & ->)|(id & u & i & oid & Hr & Hf & _ & ->)]]];
      auto using lifecycle_consistent_new.
    + destruct (sends_inv _ _ Hs)
        as [(issue & value & Hi & Hnr & Hv & ->)|(issue & value & _ & ->)];
        [|discriminate Hr].
      injection Hr as <- <-. simpl in Hf.
      rewrite (NoDup_findOne _ _ Hnd Hi) in Hf. injection Hf as <-.
      destruct (IH issue Hi) as [_ Hres].
      unfold lifecycle_consistent; simpl.
      destruct Hv as [->|[->| ->]]; simpl; (split; [reflexivity|]).
      * split; [intros Hx; now apply Hres in Hx|discriminate].
      * split; [intros Hx; now apply Hres in Hx|discriminate].
      * split; [reflexivity|discriminate].
    + apply findOne_has_id in Hf as [Hi _]. exact (IH i Hi).
Qed.

Lemma busy_operated : operated 5000 busy.
Proof.
  unfold busy, busy_log; cbn [run].
  eapply operated_dashboard with (t := 4000); [|lia|].
  eapply operated_dashboard with (t := 3000); [|lia|].
  eapply operated_dashboard with (t := 2000); [|lia|].
  eapply (operated_report 1000 _ 2000 (1 # 4) None None garbage_report); [|lia].
  eapply (operated_report 0 _ 1000 (1 # 2) None None pothole_report); [|lia].
  apply operated_start.
  - eapply Dashboard.sends_assign with (value := staff_id);
      [left; reflexivity|reflexivity].
  - eapply Dashboard.sends_status with (value := "Acknowledged");
      [right; left; reflexivity|reflexivity|right; left; reflexivity|reflexivity].
  - eapply Dashboard.sends_status with (value := "Resolved");
      [left; reflexivity|reflexivity|do 3 right; left; reflexivity|reflexivity].
Qed.

Lemma dashboard_keeps_lifecycle_witness : Forall lifecycle_consistent (issues busy).
Proof. exact (dashboard_keeps_lifecycle 5000 busy busy_operated). Defined.

Lemma update_first_keeps_others id f c c' u i :
  Store.update_first id f c = Some (c', u) ->
  In i c -> issueId i <> id -> In i c'.
Proof.
  intros H Hi Hne.
  destruct (update_first_split _ _ _ _ _ H) as (l1 & x & l2 & -> & -> & _ & Hx & _).
  apply has_id_eq in Hx.
  rewrite in_app_iff in *; simpl in *.
  destruct Hi as [?|[->|?]]; auto. congruence.
Qed.

Lemma Forall2_In_l (A B : Type) (R : A -> B -> Prop) l l' a :
  Forall2 R l l' -> In a l -> exists b, In b l' /\ R a b.
Proof.
  induction 1 as [|x y l l' Hxy Hl IH]; simpl; [intros []|].
  intros [->|Ha]; [exists y; auto|].
  destruct (IH Ha) as (b & Hb & Hab); exists b; auto.
Qed.

(** X21. Resolved is final on the dashboard.  In a reachable state, no
    request that the dashboard can send while it shows the current issues
    changes the status or the resolution time of an issue that is Resolved:
    its status menu is disabled, and an assignment touches neither. *)
Theorem resolved_is_final_on_dashboard t w now r i :
  reachable t w -> Dashboard.sends (issues w) r ->
  In i (issues w) -> status i = "Resolved" ->
  exists j, In j (issues (fst (handle now r w)))
            /\ same_report i j /\ status j = "Resolved"
            /\ resolvedAt j = resolvedAt i.
Proof.
  intros Hw Hs Hi Hres.
  pose proof (reachable_NoDup _ _ Hw) as Hnd.
  assert (Hsame : In i (issues (fst (handle now r w))) ->
                  exists j, In j (issues (fst (handle now r w)))
                            /\ same_report i j /\ status j = "Resolved"
                            /\ resolvedAt j = resolvedAt i).
  { intros H; exists i; repeat split; auto; apply same_report_refl. }
  destruct (sends_inv _ _ Hs)
    as [(issue & value & Hin & Hnr & _ & ->)|(issue & value & _ & ->)].
  - apply Hsame. simpl.
    destruct (post_update_status_cases now (Some (issueId issue)) (Some value) w)
      as [[_ H]|[(_ & _ & _ & H)|(_ & _ & x & c & Hf & Hu & H)]];
      rewrite H; simpl; auto.
    apply (update_first_keeps_others _ _ _ _ _ _ Hu Hi).
    intros Heq.
    pose proof (NoDup_findOne _ _ Hnd Hi) as F1.
    pose proof (NoDup_findOne _ _ Hnd Hin) as F2.
    rewrite Heq in F1. simpl in F1.
    assert (i = issue) by congruence. congruence.
  - cbn [handle] in *.
    destruct (post_assign_issue_effect now (Some (issueId issue)) (Some value) w)
      as [H|(x & oid & u & _ & Hu & _)].
    + apply Hsame. now rewrite H.
    + apply update_first_Forall2 in Hu.
      destruct (Forall2_In_l _ _ _ _ _ i Hu Hi) as (j & Hj & [->| ->]).
      * now apply Hsame.
      * eexists; split; [exact Hj|].
        split; [apply with_assignedTo_same_report|auto].
Qed.

Lemma resolved_is_final_on_dashboard_witness :
  exists j, In j (issues (fst (handle 9000 (AssignIssue (Some "550000") (Some staff_id))
                                 one_resolved)))
            /\ status j = "Resolved" /\ resolvedAt j = Some 7201000.
Proof.
  assert (Hs : Dashboard.sends (issues one_resolved)
                 (AssignIssue (Some "550000") (Some staff_id)))
    by (eapply Dashboard.sends_assign with (value := staff_id);
        [left; reflexivity|reflexivity]).
  destruct (resolved_is_final_on_dashboard 7201000 one_resolved 9000 _ _
              one_resolved_reachable Hs (or_introl eq_refl) eq_refl)
    as (j & Hj & _ & Hst & Hr).
  exists j; split; [exact Hj|split; [exact Hst|exact Hr]].
Defined.

(** X22. The router and the User schema agree: every department that the
    router gives is one that a staff member can have, and every department
    of the User schema is the department of some category of the Issue
    schema. *)
Theorem route_covers_departments :
  (forall category, In (route category) Users.department_enum)
  /\ (forall d, In d Users.department_enum ->
                exists category, In category issueType_enum /\ route category = d).
Proof.
  split.
  - intros category; unfold route; destruct_eqb; simpl; tauto.
  - intros d [<-|[<-|[<-|[<-|[<-|[]]]]]].
    + exists "Garbage Overflow"; split; [|reflexivity].
      right; left; reflexivity.
    + exists "Pothole"; split; [|reflexivity].
      left; reflexivity.
    + exists "Streetlight Outage"; split; [|reflexivity].
      right; right; left; reflexivity.
    + exists "Water Leakage"; split; [|reflexivity].
      right; right; right; left; reflexivity.
    + exists "Other"; split; [|reflexivity].
      right; right; right; right; left; reflexivity.
Qed.

Lemma route_covers_departments_witness :
  exists category, In category issueType_enum /\ route category = "Electrical".
Proof.
  apply (proj2 route_covers_departments "Electrical").
  right; right; left; reflexivity.
Defined.

(** X23. The resolution time is the time of the latest resolution.  When
    an issue is set to Resolved twice, the second update is accepted like
    the first and [resolvedAt] is the instant of the second. *)
Theorem resolution_time_is_latest now1 now2 id w :
  JS.falsy id = false ->
  Store.findOne (JS.text id) (issues w) <> None ->
  exists u,
    Store.findOne (JS.text id)
      (issues (run [(now1, UpdateStatus id (Some "Resolved"));
                    (now2, UpdateStatus id (Some "Resolved"))] w)) = Some u
    /\ status u = "Resolved" /\ resolvedAt u = Some now2.
Proof.
  intros Hid Hf.
  destruct (Store.findOne (JS.text id) (issues w)) as [i|] eqn:Hi; [|congruence].
  destruct (proj2 (update_status_effect now1 id (Some "Resolved") w Hid eq_refl) i Hi)
    as (u1 & _ & Hf1 & _).
  cbn [run handle].
  destruct (proj2 (update_status_effect now2 id (Some "Resolved") _ Hid eq_refl) u1 Hf1)
    as (u2 & _ & Hf2 & Hs2 & _ & Hr2 & _).
  exists u2; auto.
Qed.

Lemma resolution_time_is_latest_witness :
  exists u,
    Store.findOne "550000"
      (issues (run [(2000, UpdateStatus (Some "550000") (Some "Resolved"));
                    (9000, UpdateStatus (Some "550000") (Some "Resolved"))]
                   one_pending)) = Some u
    /\ status u = "Resolved" /\ resolvedAt u = Some 9000.
Proof.
  apply (resolution_time_is_latest 2000 9000 (Some "550000") one_pending);
    [reflexivity|discriminate].
Defined.
